(** * auto_notification: slot watcher, diff engine and notification dispatcher

    A shallow embedding of [app.py]: the post-processing of raw observations
    and the normalizer ([fetch_parsed_with_page]), the state store
    ([_load_notified], [_save_notified]), the diff loop and the cycle of
    [notify_once_for_starts], and the dispatcher ([send_email],
    [send_line]); followed by the properties of the specification.

    Conventions of the embedding.
    - A Python [str] is a Rocq [string] holding its UTF-8 encoding; its
      characters are the byte sequences [Utf8.chars] cuts it into, so [len]
      and slices count those.  Byte-wise lexicographic order on UTF-8
      coincides with Python's code-point order, and substring tests on UTF-8
      agree with tests on code points.
    - [str.strip], [\s] and [\d] follow the character database of
      CPython 3.11 (Unicode 14.0): [Unicode.is_space], [Unicode.is_decimal].
    - [None] is [None]; a dictionary read [d.get(k)] is a map lookup.
    - The outside world is a set of Section variables: the renderer, the
      HTTP providers, the SMTP server, the clock, the availability of the
      [httpx] module, and the two library calls whose verdict the program
      does not control, [int(...)] on the port and the construction of the
      [EmailMessage].
    - The files the program reads and writes are fields of the [World]
      record, threaded explicitly.  A file that exists can be opened and
      holds UTF-8 text; writing or appending to a local file succeeds. *)

From Stdlib Require Import ZArith Ascii String List.
From Stdlib Require OrderedTypeEx.
From stdpp Require Import gmap strings list fin_maps pretty sorting.

Set Warnings "-register-all,-clear-no-such-hyp".

Local Open Scope string_scope.
Local Open Scope list_scope.

(** ** Characters of a UTF-8 string, and the two character classes the
    program relies on *)

Module Utf8.

(** Width in bytes of the sequence that starts with byte [c]. *)
Definition width (c : ascii) : nat :=
  let n := nat_of_ascii c in
  if decide (n < 192)%nat then 1
  else if decide (n < 224)%nat then 2
  else if decide (n < 240)%nat then 3 else 4.

(** The characters of a string, each with its continuation bytes. *)
Fixpoint chars_from (pending : nat) (cur : string) (s : string) : list string :=
  match s with
  | EmptyString => if decide (cur = EmptyString) then [] else [cur]
  | String c s' =>
      match pending with
      | O =>
          (if decide (cur = EmptyString) then [] else [cur])
            ++ chars_from (width c - 1) (String c EmptyString) s'
      | S p => chars_from p (cur +:+ String c EmptyString) s'
      end
  end.

Definition chars (s : string) : list string := chars_from 0 EmptyString s.

(** [''.join(l)] *)
Fixpoint join (l : list string) : string :=
  match l with
  | [] => EmptyString
  | ch :: r => ch +:+ join r
  end.

(** The six payload bits of a continuation byte. *)
Definition cont (c : ascii) : option N :=
  let n := N_of_ascii c in
  if (128 <=? n)%N && (n <? 192)%N then Some (n - 128)%N else None.

(** The code point a character encodes; [None] when the bytes are not the
    UTF-8 encoding of a code point. *)
Definition code (ch : string) : option N :=
  match ch with
  | String a EmptyString =>
      let n := N_of_ascii a in
      if (n <? 128)%N then Some n else None
  | String a (String b EmptyString) =>
      let n := N_of_ascii a in
      if (192 <=? n)%N && (n <? 224)%N then
        x ← cont b;
        let cp := ((n - 192) * 64 + x)%N in
        if (128 <=? cp)%N then Some cp else None
      else None
  | String a (String b (String c EmptyString)) =>
      let n := N_of_ascii a in
      if (224 <=? n)%N && (n <? 240)%N then
        x ← cont b; y ← cont c;
        let cp := ((n - 224) * 4096 + x * 64 + y)%N in
        if (2048 <=? cp)%N && negb ((55296 <=? cp)%N && (cp <=? 57343)%N)
        then Some cp else None
      else None
  | String a (String b (String c (String d EmptyString))) =>
      let n := N_of_ascii a in
      if (240 <=? n)%N && (n <? 248)%N then
        x ← cont b; y ← cont c; z ← cont d;
        let cp := ((n - 240) * 262144 + x * 4096 + y * 64 + z)%N in
        if (65536 <=? cp)%N && (cp <=? 1114111)%N then Some cp else None
      else None
  | _ => None
  end.

End Utf8.

Module Unicode.

(** The code points [str.isspace] accepts; [str.strip] removes them and
    [\s] matches them. *)
Definition is_space (cp : N) : bool :=
  ((9 <=? cp) && (cp <=? 13) || (28 <=? cp) && (cp <=? 32)
   || (cp =? 133) || (cp =? 160) || (cp =? 5760)
   || (8192 <=? cp) && (cp <=? 8202)
   || (cp =? 8232) || (cp =? 8233) || (cp =? 8239) || (cp =? 8287)
   || (cp =? 12288))%N.

(** The decimal digits (category Nd) come in runs of ten, from the digit
    zero to the digit nine; this is the zero of every run. *)
Definition decimal_zeros : list N :=
  [48; 1632; 1776; 1984; 2406; 2534; 2662; 2790; 2918; 3046; 3174; 3302;
   3430; 3558; 3664; 3792; 3872; 4160; 4240; 6112; 6160; 6470; 6608; 6784;
   6800; 6992; 7088; 7232; 7248; 42528; 43216; 43264; 43472; 43504; 43600;
   44016; 65296; 66720; 68912; 69734; 69872; 69942; 70096; 70384; 70736;
   70864; 71248; 71360; 71472; 71904; 72016; 72784; 73040; 73120; 92768;
   92864; 93008; 120782; 120792; 120802; 120812; 120822; 123200; 123632;
   125264; 130032]%N.

(** The code points [\d] matches. *)
Definition is_decimal (cp : N) : bool :=
  existsb (λ z, (z <=? cp) && (cp <? z + 10))%N decimal_zeros.

Definition space (ch : string) : bool :=
  match Utf8.code ch with Some cp => is_space cp | None => false end.

Definition decimal (ch : string) : bool :=
  match Utf8.code ch with Some cp => is_decimal cp | None => false end.

End Unicode.

(** ** Python primitives *)

Module Py.

  (** [x or d] for an optional string: [None] and the empty string are falsy. *)
Definition or_else (o : option string) (d : string) : string :=
    match o with
    | Some s => if decide (s = EmptyString) then d else s
    | None => d
    end.

  (** Truthiness of an optional string, as in [if key:]. *)
Definition truthy (o : option string) : bool :=
    match o with
    | Some s => bool_decide (s ≠ EmptyString)
    | None => false
    end.

  (** [needle in hay]. *)
Definition contains (needle hay : string) : bool :=
    match String.index 0 needle hay with
    | Some _ => true
    | None => false
    end.

  (** [s.startswith(p)]. *)
Definition startswith (p s : string) : bool := String.prefix p s.

  (** [str.strip()]: the characters [str.isspace] accepts are removed at
      both ends. *)
Fixpoint lstrip_chars (l : list string) : list string :=
    match l with
    | ch :: r => if Unicode.space ch then lstrip_chars r else l
    | [] => []
    end.

Definition rstrip_chars (l : list string) : list string :=
    reverse (lstrip_chars (reverse l)).

Definition strip (s : string) : string :=
    Utf8.join (rstrip_chars (lstrip_chars (Utf8.chars s))).

  (** [s[:n]]: the first [n] characters. *)
Definition slice_to (n : nat) (s : string) : string :=
    Utf8.join (take n (Utf8.chars s)).

  (** [str(o)] inside an f-string. *)
Definition fmt (o : option string) : string :=
    match o with Some s => s | None => "None" end.

  (** Pairs of strings compare like Python tuples. *)
Definition pair_ltb (a b : string * string) : bool :=
    String.ltb a.1 b.1 || (String.eqb a.1 b.1 && String.ltb a.2 b.2).

  (** [list.sort(key=...)]: stable, driven by [<] on the keys only.  An
      element goes in front of the first later element whose key is not
      smaller than its own. *)
Section Sort.
Context {A : Type} (key : A → string * string).

Fixpoint insert_sorted (x : A) (l : list A) : list A :=
      match l with
      | [] => [x]
      | y :: l' =>
          if pair_ltb (key y) (key x) then y :: insert_sorted x l'
          else x :: l
      end.

Definition sort (l : list A) : list A := foldr insert_sorted [] l.
End Sort.

End Py.

(** ** JSON values and [json.dumps(..., ensure_ascii=False)] *)

Module Json.

  (** What [json.load] returns.  A float is carried by its [repr]; an
      object by its items in order, [json.load] having merged repeated
      names. *)
Inductive value :=
  | JNull
  | JBool (b : bool)
  | JInt (z : Z)
  | JFloat (repr : string)
  | JStr (s : string)
  | JArr (items : list value)
  | JObj (fields : list (string * value)).

Definition dquote : string := String (ascii_of_nat 34) EmptyString.
Definition backslash : string := String (ascii_of_nat 92) EmptyString.

Definition hex_digit (n : nat) : ascii :=
    ascii_of_nat (if decide (n < 10)%nat then 48 + n else 87 + n)%nat.

  (** One character of a string literal. *)
Definition escape_char (c : ascii) : string :=
    let n := nat_of_ascii c in
    if decide (n = 34) then backslash +:+ dquote
    else if decide (n = 92) then backslash +:+ backslash
    else if decide (n = 10) then backslash +:+ "n"
    else if decide (n = 13) then backslash +:+ "r"
    else if decide (n = 9) then backslash +:+ "t"
    else if decide (n = 8) then backslash +:+ "b"
    else if decide (n = 12) then backslash +:+ "f"
    else if decide (n < 32)%nat then
      backslash +:+ "u00"
        +:+ String (hex_digit (n / 16)) (String (hex_digit (n mod 16)) EmptyString)
    else String c EmptyString.

Fixpoint escape (s : string) : string :=
    match s with
    | String c s' => escape_char c +:+ escape s'
    | EmptyString => EmptyString
    end.

Definition quote (s : string) : string := dquote +:+ escape s +:+ dquote.

  (** How [json.dumps] writes a float: its [repr], except for the three
      values JSON has no literal for. *)
Definition float_text (repr : string) : string :=
    if decide (repr = "inf") then "Infinity"
    else if decide (repr = "-inf") then "-Infinity"
    else if decide (repr = "nan") then "NaN"
    else repr.

Fixpoint dumps (v : value) : string :=
    match v with
    | JNull => "null"
    | JBool true => "true"
    | JBool false => "false"
    | JInt z => pretty z
    | JFloat r => float_text r
    | JStr s => quote s
    | JArr items =>
        "[" +:+ String.concat ", " (map dumps items) +:+ "]"
    | JObj fields =>
        "{" +:+ String.concat ", "
                  (map (λ kv, quote kv.1 +:+ ": " +:+ dumps kv.2) fields) +:+ "}"
    end.

  (** An optional string as a JSON value: [None] is [null]. *)
Definition of_opt (o : option string) : value :=
    match o with Some s => JStr s | None => JNull end.

(** [x != s] for [x] a loaded value or [None] and [s] a [str]: only an
    equal string is equal. *)
Definition ne_str (x : option value) (s : string) : bool :=
  match x with
  | Some (JStr s') => bool_decide (s' ≠ s)
  | _ => true
  end.

End Json.
Export Json(value(..)).

(** ** Slot records and the post-processing of raw observations
    ([fetch_parsed_with_page], after the DOM has been evaluated) *)

(** One object pushed by the DOM snippet; every field is a JS string. *)
Record RawItem := mkRaw {
  raw_start : string;
  raw_end : string;
  raw_service_cd : string;
  raw_multi : string;
  raw_icon_class : string;
  raw_icon_color : string;
  raw_bg : string;
  raw_text_of : string;
}.

(** The dictionary appended to [results]. *)
Record SlotRecord := mkSlot {
  date : option string;
  time : option string;
  status : option string;
  raw_text : option string;
  attrs : gmap string string;
}.

#[global] Instance SlotRecord_eq_dec : EqDecision SlotRecord.
Proof. solve_decision. Defined.

Module Parse.

Definition is_char (x : ascii) (c : ascii) : bool := bool_decide (c = x).

(** The character classes of the two patterns; a character is the byte
    sequence that encodes it. *)
Definition digit (ch : string) : bool := Unicode.decimal ch.

Definition one (x : ascii) (ch : string) : bool :=
    bool_decide (ch = String x EmptyString).

  (** [\d{2}:\d{2}] at the head of [l]. *)
Definition clock_at (l : list string) : option string :=
    match l with
    | h1 :: h2 :: c :: n1 :: n2 :: _ =>
        if digit h1 && digit h2 && one ":" c && digit n1 && digit n2
        then Some (h1 +:+ h2 +:+ ":" +:+ n1 +:+ n2) else None
    | _ => None
    end.

  (** [\d{4}SEP\d{2}SEP\d{2}OPT?\d{2}:\d{2}] at the head of [l]; the groups
      are returned as [YYYY-MM-DD] and [HH:MM].  The optional character is
      tried first and given back when the rest does not match with it. *)
Definition datetime_at (sep opt : string → bool) (l : list string)
    : option (string * string) :=
    match l with
    | y1 :: y2 :: y3 :: y4 :: s1 :: m1 :: m2 :: s2 :: d1 :: d2 :: rest =>
        if digit y1 && digit y2 && digit y3 && digit y4 && sep s1
           && digit m1 && digit m2 && sep s2 && digit d1 && digit d2
        then
          let hm :=
            match rest with
            | c :: r =>
                if opt c
                then match clock_at r with
                     | Some hm => Some hm
                     | None => clock_at rest
                     end
                else clock_at rest
            | [] => clock_at rest
            end in
          match hm with
          | Some hm =>
              Some (y1 +:+ y2 +:+ y3 +:+ y4 +:+ "-" +:+ m1 +:+ m2
                      +:+ "-" +:+ d1 +:+ d2, hm)
          | None => None
          end
        else None
    | _ => None
    end.

  (** [re.search]: the leftmost position at which the pattern matches. *)
Fixpoint search (sep opt : string → bool) (l : list string)
    : option (string * string) :=
    match datetime_at sep opt l with
    | Some r => Some r
    | None =>
        match l with
        | _ :: l' => search sep opt l'
        | [] => None
        end
    end.

  (** [(\d{4})[/-](\d{2})[/-](\d{2})[T\s]?(\d{2}):(\d{2})] *)
Definition re_slashed (s : string) : option (string * string) :=
    search (λ ch, one "/" ch || one "-" ch)
           (λ ch, one "T" ch || Unicode.space ch) (Utf8.chars s).

  (** [(\d{4}-\d{2}-\d{2})T?(\d{2}:\d{2})] *)
Definition re_iso (s : string) : option (string * string) :=
    search (one "-") (one "T") (Utf8.chars s).

  (** Lines 197-207: date and time are set together or not at all. *)
Definition date_time (start_raw : string) : option (string * string) :=
    match re_slashed start_raw with
    | Some dt => Some dt
    | None => re_iso start_raw
    end.

  (** Lines 209-222. *)
Definition classify (icon_class icon_color bg text : string) : string :=
    let nonempty s := bool_decide (s ≠ EmptyString) in
    if nonempty icon_class && Py.contains "fa-times" icon_class then "full"
    else if nonempty icon_color
            && (Py.contains "#f803" icon_color || Py.contains "rgb(248" icon_color
                || Py.contains "red" icon_color) then "full"
    else if nonempty bg
            && (Py.contains "#C0C0C0" bg || Py.contains "rgb(192" bg
                || Py.contains "gray" bg) then "full"
    else if Py.contains "〇" text || Py.contains "○" text then "available"
    else if nonempty icon_class
            && (Py.contains "fa-circle" icon_class
                || Py.contains "fa-check" icon_class) then "available"
    else if Py.contains "砂" text || Py.contains "砂時計" text
            || (nonempty icon_class && Py.contains "hourglass" icon_class)
         then "not_started"
    else "other".

  (** The body of the loop over [data] (lines 189-240). *)
Definition post_process (item : RawItem) : SlotRecord :=
    let start_raw := Py.strip (raw_start item) in
    let end_raw := Py.strip (raw_end item) in
    let text := Py.strip (raw_text_of item) in
    let icon_class := Py.strip (raw_icon_class item) in
    let icon_color := Py.strip (raw_icon_color item) in
    let bg := Py.strip (raw_bg item) in
    let m := date_time start_raw in
    {| date := fst <$> m;
       time := snd <$> m;
       status := Some (classify icon_class icon_color bg text);
       raw_text := Some text;
       attrs := <["service_cd" := raw_service_cd item]>
                (<["multi_edit_key" := raw_multi item]>
                (<["icon_class" := icon_class]>
                (<["icon_color" := icon_color]>
                (<["bg" := bg]>
                (<["start_raw" := start_raw]>
                (<["end_raw" := end_raw]> ∅)))))) |}.

End Parse.

(** ** Observation normalizer (lines 242-258) and slot keys *)

Definition SlotKey : Type :=
  option string * option string * option string * option string.

(** [_slot_key]; the same tuple is built inline by the dedupe loop. *)
Definition _slot_key (item : SlotRecord) : SlotKey :=
  (date item, time item, attrs item !! "service_cd", attrs item !! "start_raw").

(** [_key_to_str]: a tuple of strings and [None]s always serializes, so the
    [except] branch is never taken. *)
Definition _key_to_str (key_tuple : SlotKey) : string :=
  let '(d, t, cd, sr) := key_tuple in
  Json.dumps (JArr [Json.of_opt d; Json.of_opt t; Json.of_opt cd; Json.of_opt sr]).

Module Normalizer.

  (** The loop [for r in results], with its two accumulators. *)
Fixpoint dedupe_loop (seen : gset SlotKey) (deduped results : list SlotRecord)
    : list SlotRecord :=
    match results with
    | [] => deduped
    | r :: rest =>
        let key := _slot_key r in
        if decide (key ∈ seen) then dedupe_loop seen deduped rest
        else dedupe_loop ({[key]} ∪ seen) (deduped ++ [r]) rest
    end.

Definition dedupe (results : list SlotRecord) : list SlotRecord :=
    dedupe_loop ∅ [] results.

Definition sort_key (x : SlotRecord) : string * string :=
    (Py.or_else (date x) "9999-12-31", Py.or_else (time x) "99:99").

  (** [# dedupe & sort] *)
Definition normalize (results : list SlotRecord) : list SlotRecord :=
    Py.sort sort_key (dedupe results).

End Normalizer.

(** What [fetch_parsed_with_page] returns from the evaluated DOM. *)
Definition parse_page (data : list RawItem) : list SlotRecord :=
  Normalizer.normalize (map Parse.post_process data).

(** ** State store ([_load_notified], [_save_notified]) *)

(** What [open] followed by [json.load] gives: an exception or a value. *)
Inductive FileRead :=
| ReadError
| ReadOk (data : value).

Module Store.

(** Keys of a dictionary in insertion order. *)
Fixpoint keys_in_order (seen : list string) (l : list string) : list string :=
  match l with
  | [] => []
  | k :: rest =>
      if decide (k ∈ seen) then keys_in_order seen rest
      else k :: keys_in_order (k :: seen) rest
  end.

(** [list(item)]: [None] stands for the [TypeError] of a non-iterable. *)
Definition py_list (item : value) : option (list value) :=
  match item with
  | JArr items => Some items
  | JStr s => Some (map JStr (Utf8.chars s))
  | JObj fields => Some (map JStr (keys_in_order [] (map fst fields)))
  | _ => None
  end.

(** The key computed for one entry of a legacy file. *)
Definition legacy_key (item : value) : string :=
  match py_list item with
  | Some l => Json.dumps (JArr l)
  | None => Json.dumps item
  end.

(** The dictionary [json.load] builds from an object: a repeated name keeps
    its last value. *)
Definition dict_of (fields : list (string * value)) : gmap string value :=
  foldl (λ m kv, <[kv.1 := kv.2]> m) ∅ fields.

Definition placeholder : string := "notified".

Definition _load_notified (file : FileRead) : gmap string value :=
  match file with
  | ReadOk (JObj fields) => dict_of fields
  | ReadOk (JArr data) =>
      foldl (λ out item, <[legacy_key item := JStr placeholder]> out) ∅ data
  | ReadOk _ => ∅
  | ReadError => ∅
  end.

(** The content of the state file after [_save_notified d]. *)
Definition _save_notified (d : gmap string value) : FileRead :=
  ReadOk (JObj (map_to_list d)).

End Store.

(** ** Diff engine: the loop of [notify_once_for_starts] (lines 571-592) *)

Module Diff.

Definition current_status (c : SlotRecord) : string :=
  Py.or_else (status c) EmptyString.

Definition key_str (c : SlotRecord) : string := _key_to_str (_slot_key c).

(** The two tests guarding [produced.append(c)]. *)
Definition notifiable (prev : gmap string value) (c : SlotRecord) : bool :=
  bool_decide (current_status c ≠ "full")
  && Json.ne_str (prev !! key_str c) (current_status c).

(** One iteration of [for c in items]; [prev] is never written. *)
Definition step (prev : gmap string value)
    (acc : gmap string value * list SlotRecord) (c : SlotRecord)
  : gmap string value * list SlotRecord :=
  let '(new_notified, produced) := acc in
  (<[key_str c := JStr (current_status c)]> new_notified,
   if notifiable prev c then produced ++ [c] else produced).

(** One iteration of [for s in starts]: a failed fetch is skipped. *)
Definition batch (prev : gmap string value)
    (acc : gmap string value * list SlotRecord)
    (items : option (list SlotRecord))
  : gmap string value * list SlotRecord :=
  match items with
  | Some l => foldl (step prev) acc l
  | None => acc
  end.

(** From [prev = _load_notified()] to the end of the loop:
    [(new_notified, produced)]. *)
Definition run (prev : gmap string value)
    (fetched : list (option (list SlotRecord)))
  : gmap string value * list SlotRecord :=
  foldl (batch prev) (prev, []) fetched.

(** Every record seen in the cycle, in the order the loop visits them. *)
Definition observed (fetched : list (option (list SlotRecord)))
  : list SlotRecord :=
  concat (map (λ o, default [] o) fetched).

End Diff.

(** ** The world the program runs in *)

(** A JSON line of [notifications.jsonl]; a key the writer leaves out is
    [None], and [e_subject] is the value stored under ['subject']. *)
Record Entry := mkEntry {
  e_ts : string;
  e_method : string;
  e_recipients : option (list string);
  e_tokens : option (list string);
  e_subject : option string;
  e_message : option string;
  e_status : string;
  e_detail : string;
}.

(** A record written to [notification.log], with the values the f-string
    interpolates. *)
Inductive LogLine :=
| LogProviderFailed (provider : string) (status_code : Z) (body subject : string)
    (recipients : list string)
| LogProviderException (provider : string) (err subject : string)
    (recipients : list string)
| LogSmtpFailed (err subject : string) (recipients : list string)
| LogDryRun (subject : string) (recipients : list string) (body : string)
| LogLineDryRun (message : string)
| LogLineNoHttpx (err message : string)
| LogLineFailed (status_code : Z) (body token_prefix message : string)
| LogLineException (err token_prefix message : string).

(** An HTTP request as [httpx.post] receives it. *)
Inductive Request :=
| SendGridPost (bearer from_addr : string) (recipients : list string)
    (subject body : string)
| MailgunPost (domain api_key from_addr : string) (recipients : list string)
    (subject body : string)
| LinePost (bearer message : string).

(** The answer to a request: a response, or the exception raised. *)
Inductive Reply :=
| Response (status_code : Z) (text : string)
| Raised (err : string).

(** One SMTP session: connect, optional login, [send_message]. *)
Record SmtpJob := mkSmtp {
  smtp_host : string;
  smtp_port : Z;
  smtp_login : option (string * string);
  smtp_from : string;
  smtp_to : list string;
  smtp_subject : string;
  smtp_body : string;
}.

Inductive Call :=
| HttpCall (r : Request)
| SmtpCall (j : SmtpJob).

Record World := mkWorld {
  environ : gmap string string;
  recipients_txt : option (list string);
  line_tokens_txt : option (list string);
  notified_json : FileRead;
  notification_log : list LogLine;
  notifications_jsonl : list Entry;
  wire : list Call;
}.

Definition log_line (l : LogLine) (w : World) : World :=
  mkWorld (environ w) (recipients_txt w) (line_tokens_txt w) (notified_json w)
          (notification_log w ++ [l]) (notifications_jsonl w) (wire w).

Definition put_history (e : Entry) (w : World) : World :=
  mkWorld (environ w) (recipients_txt w) (line_tokens_txt w) (notified_json w)
          (notification_log w) (notifications_jsonl w ++ [e]) (wire w).

Definition put_wire (c : Call) (w : World) : World :=
  mkWorld (environ w) (recipients_txt w) (line_tokens_txt w) (notified_json w)
          (notification_log w) (notifications_jsonl w) (wire w ++ [c]).

Definition put_notified (f : FileRead) (w : World) : World :=
  mkWorld (environ w) (recipients_txt w) (line_tokens_txt w) f
          (notification_log w) (notifications_jsonl w) (wire w).

(** What a call leaves behind: a returned value or a propagating exception. *)
Inductive Outcome (A : Type) :=
| Returned (a : A)
| Exception (err : string).
Arguments Returned {A} a.
Arguments Exception {A} err.

(** ** Notification dispatcher ([send_email], [send_line]) and one cycle *)

Section Program.

(** The collaborators outside the process.  A network answer may depend on
    how many calls were made before it, a clock reading on how many audit
    entries were written before it. *)
Context (http_post : nat → Request → Reply).
Context (smtp_deliver : nat → SmtpJob → option string).
Context (utcnow : nat → string).
Context (httpx_import : option string).
Context (observe : string → option (list RawItem)).

(** [int(s)] as the interpreter decides it: [None] stands for the
    [ValueError] of a string that is no integer literal. *)
Context (py_int : string → option Z).

(** Lines 410-414, the [EmailMessage] built from subject, sender, joined
    recipients and body: [Some e] is the exception the [email] package
    raises when it refuses a header value, [None] means the message is
    built. *)
Context (email_message : string → string → string → string → option string).

Definition now (w : World) : string := utcnow (length (notifications_jsonl w)).

(** [_append_history] with the entry [send_email] builds. *)
Definition audit_email (method : string) (recipients : list string)
    (subject status detail : string) (w : World) : World :=
  put_history (mkEntry (now w) method (Some recipients) None (Some subject)
                       None status detail) w.

(** [_append_history] with the entry [send_line] builds for token [t]. *)
Definition audit_line (t message status detail : string) (w : World) : World :=
  put_history (mkEntry (now w) "line" None (Some [Py.slice_to 8 t]) None
                       (Some message) status detail) w.

Definition post (r : Request) (w : World) : Reply * World :=
  (http_post (length (wire w)) r, put_wire (HttpCall r) w).

Definition accepted (code : Z) : bool :=
  bool_decide (code = 200 ∨ code = 202)%Z.

Definition status_detail (code : Z) : string := "status=" +:+ pretty code.

Definition failure_detail (code : Z) (text : string) : string :=
  "status=" +:+ pretty code +:+ " body=" +:+ text.

(** The body of an [if <provider configured>:] block of [send_email] for an
    HTTP provider.  [Some b] is [return b]; [None] is the fall through that
    follows the [except] clause. *)
Definition http_provider (label method : string) (req : Request)
    (subject : string) (recipients : list string) (w : World)
  : option bool * World :=
  match httpx_import with
  | Some e => (None, log_line (LogProviderException label e subject recipients) w)
  | None =>
      let '(reply, w1) := post req w in
      match reply with
      | Response code text =>
          if accepted code
          then (Some true,
                audit_email method recipients subject "success"
                            (status_detail code) w1)
          else (Some false,
                audit_email method recipients subject "failed"
                            (failure_detail code text)
                  (log_line (LogProviderFailed label code text subject recipients)
                            w1))
      | Raised e =>
          (None, log_line (LogProviderException label e subject recipients) w1)
      end
  end.

Definition from_addr (w : World) : string :=
  Py.or_else (environ w !! "FROM_EMAIL")
             (Py.or_else (environ w !! "SMTP_USER") "noreply@example.com").

(** [# 1) SendGrid] *)
Definition sendgrid (subject body : string) (recipients : list string)
    (w : World) : option bool * World :=
  match environ w !! "SENDGRID_API_KEY" with
  | Some key =>
      if Py.truthy (Some key)
      then http_provider "SendGrid" "sendgrid"
             (SendGridPost key (from_addr w) recipients subject body)
             subject recipients w
      else (None, w)
  | None => (None, w)
  end.

(** [# 2) Mailgun] *)
Definition mailgun (subject body : string) (recipients : list string)
    (w : World) : option bool * World :=
  match environ w !! "MAILGUN_API_KEY", environ w !! "MAILGUN_DOMAIN" with
  | Some key, Some domain =>
      if Py.truthy (Some key) && Py.truthy (Some domain)
      then http_provider "Mailgun" "mailgun"
             (MailgunPost domain key (from_addr w) recipients subject body)
             subject recipients w
      else (None, w)
  | _, _ => (None, w)
  end.

(** [smtp_port = int(...) if os.environ.get('SMTP_PORT') else None] *)
Definition read_smtp_port (w : World) : Outcome (option Z) :=
  match environ w !! "SMTP_PORT" with
  | Some p =>
      if Py.truthy (Some p)
      then match py_int p with
           | Some z => Returned (Some z)
           | None => Exception "ValueError"
           end
      else Returned None
  | None => Returned None
  end.

Definition smtp_credentials (w : World) : option (string * string) :=
  match environ w !! "SMTP_USER", environ w !! "SMTP_PASS" with
  | Some u, Some p =>
      if Py.truthy (Some u) && Py.truthy (Some p) then Some (u, p) else None
  | _, _ => None
  end.

(** [msg = EmailMessage(); msg['Subject'] = ...; msg.set_content(body)],
    outside every [try]. *)
Definition build_message (subject body : string) (recipients : list string)
    (w : World) : option string :=
  email_message subject (from_addr w) (String.concat ", " recipients) body.

(** The [if smtp_host and smtp_port:] block and [# 4) dry-run]. *)
Definition smtp_block (port : option Z) (subject body : string)
    (recipients : list string) (w : World) : bool * World :=
  match environ w !! "SMTP_HOST", port with
  | Some host, Some p =>
      if Py.truthy (Some host) && bool_decide (p ≠ 0%Z)
      then
        let job := mkSmtp host p (smtp_credentials w) (from_addr w)
                          recipients subject body in
        let w1 := put_wire (SmtpCall job) w in
        match smtp_deliver (length (wire w)) job with
        | None =>
            (true,
             audit_email "smtp" recipients subject "success"
                         (host +:+ ":" +:+ pretty p) w1)
        | Some e =>
            (false,
             audit_email "smtp" recipients subject "failed" e
                         (log_line (LogSmtpFailed e subject recipients) w1))
        end
      else
        (false,
         audit_email "dry-run" recipients subject "dry-run" EmptyString
                     (log_line (LogDryRun subject recipients body) w))
  | _, _ =>
      (false,
       audit_email "dry-run" recipients subject "dry-run" EmptyString
                   (log_line (LogDryRun subject recipients body) w))
  end.

(** [# 3) SMTP fallback] and [# 4) dry-run]: the port is read, the message
    is built, and only then the SMTP block is entered. *)
Definition smtp_or_dry_run (subject body : string) (recipients : list string)
    (w : World) : Outcome bool * World :=
  match read_smtp_port w with
  | Exception e => (Exception e, w)
  | Returned port =>
      match build_message subject body recipients w with
      | Some e => (Exception e, w)
      | None =>
          let '(b, w1) := smtp_block port subject body recipients w in
          (Returned b, w1)
      end
  end.

Definition send_email (subject body : string) (recipients : list string)
    (w : World) : Outcome bool * World :=
  match sendgrid subject body recipients w with
  | (Some b, w1) => (Returned b, w1)
  | (None, w1) =>
      match mailgun subject body recipients w1 with
      | (Some b, w2) => (Returned b, w2)
      | (None, w2) => smtp_or_dry_run subject body recipients w2
      end
  end.

(** The body of [for t in tokens]. *)
Definition line_step (message : string) (acc : bool * World) (t : string)
  : bool * World :=
  let '(success_any, w) := acc in
  let '(reply, w1) := post (LinePost t message) w in
  match reply with
  | Response code text =>
      if bool_decide (code = 200%Z)
      then (true, audit_line t message "success" (status_detail code) w1)
      else (success_any,
            audit_line t message "failed" (failure_detail code text)
              (log_line (LogLineFailed code text (Py.slice_to 8 t) message) w1))
  | Raised e =>
      (success_any,
       audit_line t message "failed" e
         (log_line (LogLineException e (Py.slice_to 8 t) message) w1))
  end.

Definition send_line (message : string) (tokens : list string) (w : World)
  : bool * World :=
  match tokens with
  | [] => (false, log_line (LogLineDryRun message) w)
  | _ =>
      match httpx_import with
      | Some e => (false, log_line (LogLineNoHttpx e message) w)
      | None => foldl (line_step message) (false, w) tokens
      end
  end.

(** [_read_recipients] and [_read_line_tokens] *)
Definition read_list (file : option (list string)) : list string :=
  match file with
  | Some lines =>
      filter (λ l, l ≠ EmptyString ∧ Py.startswith "#" l = false)
             (map Py.strip lines)
  | None => []
  end.

Definition _read_recipients (w : World) : list string :=
  read_list (recipients_txt w).

Definition _read_line_tokens (w : World) : list string :=
  read_list (line_tokens_txt w).

(** [fetch_parsed_impl]: [None] is any exception of the browser session. *)
Definition fetch_parsed_impl (start_date : string) : option (list SlotRecord) :=
  parse_page <$> observe start_date.

Definition newline : string := String (ascii_of_nat 10) EmptyString.

Definition subject_of (produced : list SlotRecord) : string :=
  "予約枠の空き候補が見つかりました (" +:+ pretty (length produced) +:+ "件)".

Definition body_line (p : SlotRecord) : string :=
  Py.fmt (date p) +:+ " " +:+ Py.fmt (time p) +:+ "  status="
    +:+ Py.fmt (status p) +:+ " service_cd="
    +:+ Py.fmt (attrs p !! "service_cd") +:+ newline +:+ "  text="
    +:+ Py.fmt (raw_text p) +:+ newline.

Definition body_of (produced : list SlotRecord) : string :=
  String.concat newline (map body_line produced).

(** The dictionary [notify_once_for_starts] returns. *)
Record Summary := mkSummary {
  new_count : nat;
  notified : list SlotKey;
  recipients : list string;
}.

Definition notify_once_for_starts (starts : list string) (w : World)
  : Outcome Summary * World :=
  let recipients := _read_recipients w in
  let prev := Store._load_notified (notified_json w) in
  let '(new_notified, produced) := Diff.run prev (map fetch_parsed_impl starts) in
  let sent :=
    match produced, recipients with
    | _ :: _, _ :: _ =>
        send_email (subject_of produced) (body_of produced) recipients w
    | _, _ => (Returned false, w)
    end in
  match sent with
  | (Exception e, w1) => (Exception e, w1)
  | (Returned _, w1) =>
      (Returned (mkSummary (length produced) (map _slot_key produced) recipients),
       put_notified (Store._save_notified new_notified) w1)
  end.

End Program.

(** ** Auxiliary definitions used by the statements *)

(** The first [k] bytes of a string, and the rest. *)
Fixpoint split_at (k : nat) (s : string) : string * string :=
  match k, s with
  | S k', String c r => let '(a, b) := split_at k' r in (String c a, b)
  | _, _ => (EmptyString, s)
  end.

(** A character that is complete: its first byte announces its length. *)
Definition complete (ch : string) : Prop :=
  match ch with
  | String c a => String.length a = (Utf8.width c - 1)%nat
  | EmptyString => False
  end.

(** The state after visiting the records [l] starting from [m]: one
    assignment [new_notified[key_str] = current_status] per record. *)
Definition record_all (m : gmap string value) (l : list SlotRecord)
  : gmap string value :=
  foldl (λ m c, <[Diff.key_str c := JStr (Diff.current_status c)]> m) m l.

(** Records of one cycle that share a key agree on the status. *)
Definition consistent (l : list SlotRecord) : Prop :=
  ∀ c1 c2, c1 ∈ l → c2 ∈ l →
    Diff.key_str c1 = Diff.key_str c2 →
    Diff.current_status c1 = Diff.current_status c2.

(** What a run added to the wire and to the audit log. *)
Definition calls_since (w w' : World) : list Call :=
  drop (length (wire w)) (wire w').

Definition audits_since (w w' : World) : list Entry :=
  drop (length (notifications_jsonl w)) (notifications_jsonl w').

Definition logs_since (w w' : World) : list LogLine :=
  drop (length (notification_log w)) (notification_log w').

Definition is_sendgrid (c : Call) : bool :=
  match c with HttpCall (SendGridPost _ _ _ _ _) => true | _ => false end.

Definition is_mailgun (c : Call) : bool :=
  match c with HttpCall (MailgunPost _ _ _ _ _ _) => true | _ => false end.

Definition is_smtp (c : Call) : bool :=
  match c with SmtpCall _ => true | _ => false end.

(** A provider is attempted when a call to it reaches the wire. *)
Definition attempted (p : Call → bool) (w w' : World) : Prop :=
  Exists (λ c, p c = true) (calls_since w w').

(** The conditions of the two [if <configured>:] tests of the HTTP
    providers of [send_email]. *)
Definition sendgrid_configured (w : World) : bool :=
  Py.truthy (environ w !! "SENDGRID_API_KEY").

Definition mailgun_configured (w : World) : bool :=
  Py.truthy (environ w !! "MAILGUN_API_KEY")
  && Py.truthy (environ w !! "MAILGUN_DOMAIN").

(** The requests [send_email] would post. *)
Definition sendgrid_request (subject body : string) (recipients : list string)
    (w : World) : Request :=
  SendGridPost (default EmptyString (environ w !! "SENDGRID_API_KEY"))
               (from_addr w) recipients subject body.

Definition mailgun_request (subject body : string) (recipients : list string)
    (w : World) : Request :=
  MailgunPost (default EmptyString (environ w !! "MAILGUN_DOMAIN"))
              (default EmptyString (environ w !! "MAILGUN_API_KEY"))
              (from_addr w) recipients subject body.

(** The two worlds agree on everything a later provider reads. *)
Definition same_setup (w w' : World) : Prop :=
  environ w' = environ w
  ∧ recipients_txt w' = recipients_txt w
  ∧ line_tokens_txt w' = line_tokens_txt w
  ∧ notified_json w' = notified_json w.

Section Chain.

Context (http_post : nat → Request → Reply).
Context (httpx_import : option string).
Context (py_int : string → option Z).

(** The test [if smtp_host and smtp_port:]: the host is set and not empty,
    and [SMTP_PORT] is set, not empty, and read by [int] as a number other
    than zero. *)
Definition smtp_configured (w : World) : bool :=
  Py.truthy (environ w !! "SMTP_HOST")
  && match read_smtp_port py_int w with
     | Returned (Some p) => bool_decide (p ≠ 0%Z)
     | _ => false
     end.

(** The call the SendGrid block puts on the wire, if any. *)
Definition sendgrid_calls (subject body : string) (recipients : list string)
    (w : World) : list Call :=
  if sendgrid_configured w && bool_decide (httpx_import = None)
  then [HttpCall (sendgrid_request subject body recipients w)] else [].

(** SendGrid gave no answer: it is not configured, or its attempt raised
    (at the import or at the request). *)
Definition sendgrid_silent (subject body : string) (recipients : list string)
    (w : World) : Prop :=
  sendgrid_configured w = false
  ∨ httpx_import ≠ None
  ∨ ∃ e, http_post (length (wire w))
                   (sendgrid_request subject body recipients w) = Raised e.

(** The position on the wire of the Mailgun request. *)
Definition mailgun_at (subject body : string) (recipients : list string)
    (w : World) : nat :=
  length (wire w) + length (sendgrid_calls subject body recipients w).

Definition mailgun_calls (subject body : string) (recipients : list string)
    (w : World) : list Call :=
  if mailgun_configured w && bool_decide (httpx_import = None)
  then [HttpCall (mailgun_request subject body recipients w)] else [].

Definition mailgun_silent (subject body : string) (recipients : list string)
    (w : World) : Prop :=
  mailgun_configured w = false
  ∨ httpx_import ≠ None
  ∨ ∃ e, http_post (mailgun_at subject body recipients w)
                   (mailgun_request subject body recipients w) = Raised e.

(** The position on the wire of the SMTP session. *)
Definition smtp_at (subject body : string) (recipients : list string)
    (w : World) : nat :=
  mailgun_at subject body recipients w
  + length (mailgun_calls subject body recipients w).

End Chain.

(** The audit entry [send_email] appends in world [w]. *)
Definition email_entry (utcnow : nat → string) (w : World)
    (recipients : list string) (subject method status detail : string)
  : Entry :=
  mkEntry (utcnow (length (notifications_jsonl w))) method (Some recipients)
          None (Some subject) None status detail.

(** The entry an HTTP provider's answer leaves. *)
Definition answer_entry (utcnow : nat → string) (w : World)
    (recipients : list string) (subject method : string) (code : Z)
    (text : string) : Entry :=
  email_entry utcnow w recipients subject method
    (if accepted code then "success" else "failed")
    (if accepted code then status_detail code else failure_detail code text).


(** [p] is made of the first eight characters of the token [t]. *)
Definition masked (t p : string) : Prop :=
  Utf8.chars p = take 8 (Utf8.chars t) ∧ String.prefix p t = true.

(** The audit entry [send_line] writes for token [t]: of the token, only
    the first eight characters are stored. *)
Definition line_entry (message t : string) (e : Entry) : Prop :=
  ∃ p, masked t p
       ∧ e_method e = "line" ∧ e_recipients e = None ∧ e_tokens e = Some [p]
       ∧ e_subject e = None ∧ e_message e = Some message
       ∧ (e_status e = "success" ∨ e_status e = "failed").

(** ** Concrete worlds used to exercise the statements *)

Module Scenario.

Definition clock (n : nat) : string := "2025-11-09T03:00:00".

Definition smtp_ok (n : nat) (j : SmtpJob) : option string := None.

(** [int] on the port strings the scenarios use: two port numbers, and the
    [ValueError] of [int('abc')]. *)
Definition int_of (s : string) : option Z :=
  if decide (s = "587") then Some 587%Z
  else if decide (s = "465") then Some 465%Z
  else None.

(** Every message of the scenarios can be built. *)
Definition message_ok (subject from_addr to body : string) : option string :=
  None.

(** No file exists, nothing is configured. *)
Definition blank : World := mkWorld ∅ None None ReadError [] [] [].

Definition configured (env : gmap string string) : World :=
  mkWorld env None None ReadError [] [] [].

(** SendGrid and Mailgun are both configured, SMTP is not. *)
Definition two_http : gmap string string :=
  <["SENDGRID_API_KEY" := "SG.abc"]>
  (<["MAILGUN_API_KEY" := "key-123"]>
  (<["MAILGUN_DOMAIN" := "mg.example.com"]> ∅)).

(** SendGrid answers 500; every other request is accepted. *)
Definition sendgrid_rejects (n : nat) (r : Request) : Reply :=
  match r with
  | SendGridPost _ _ _ _ _ => Response 500 "Internal Server Error"
  | _ => Response 200 "OK"
  end.

(** The request to SendGrid raises; every other request is accepted. *)
Definition sendgrid_times_out (n : nat) (r : Request) : Reply :=
  match r with
  | SendGridPost _ _ _ _ _ => Raised "timed out"
  | _ => Response 200 "OK"
  end.

(** The second request on the wire is refused, the others are accepted. *)
Definition second_refused (n : nat) (r : Request) : Reply :=
  if decide (n = 1) then Response 401 "Invalid access token"
  else Response 200 "ok".

Definition all_accepted (n : nat) (r : Request) : Reply := Response 200 "OK".

Definition to : list string := ["a@example.com"].

(** Providers configured and one recipient on file; no state file yet. *)
Definition watched : World :=
  mkWorld two_http (Some ["# recipients"; "a@example.com "]) None ReadError
          [] [] [].

(** One slot, shown as available (a circle in the text). *)
Definition slot_available : RawItem :=
  mkRaw "2025/11/09 13:00:00" "2025/11/09 14:00:00" "svc-1" "k1"
        EmptyString EmptyString EmptyString "〇 13:00".

(** The same slot, shown without any status signal. *)
Definition slot_unmarked : RawItem :=
  mkRaw "2025/11/09 13:00:00" "2025/11/09 14:00:00" "svc-1" "k1"
        EmptyString EmptyString EmptyString "13:00".

(** The same slot, shown as full. *)
Definition slot_full : RawItem :=
  mkRaw "2025/11/09 13:00:00" "2025/11/09 14:00:00" "svc-1" "k1"
        "fa fa-times" EmptyString EmptyString "13:00".

(** An entry whose start marker holds no date. *)
Definition undated : RawItem :=
  mkRaw EmptyString EmptyString "svc-2" "k2"
        EmptyString EmptyString EmptyString "〇".

(** An entry whose start marker matches the pattern with day 32. *)
Definition late_dated : RawItem :=
  mkRaw "9999-12-32 00:00" EmptyString "svc-3" "k3"
        EmptyString EmptyString EmptyString "〇".

Definition starts : list string := ["2025-11-09"; "2025-11-16"].

(** The renderer shows the one week for both start dates (the week switch
    did not take), and the slot has lost its mark by the second fetch. *)
Definition flapping (start_date : string) : option (list RawItem) :=
  if decide (start_date = "2025-11-09") then Some [slot_available]
  else Some [slot_unmarked].

(** The first start date shows the available slot, the second an empty
    week. *)
Definition steady (start_date : string) : option (list RawItem) :=
  if decide (start_date = "2025-11-09") then Some [slot_available]
  else Some [].

(** Another slot of that day, shown as full. *)
Definition later_slot_full : RawItem :=
  mkRaw "2025/11/09 15:00:00" "2025/11/09 16:00:00" "svc-1" "k2"
        "fa fa-times" EmptyString EmptyString "15:00".

(** Every week shows one available and one full slot. *)
Definition mixed (start_date : string) : option (list RawItem) :=
  Some [slot_available; later_slot_full].

Definition three_tokens : list string :=
  ["tokenAAAAAAAAAAAA"; "tokenBBBBBBBBBBBB"; "tokenCCCCCCCCCCCC"].


(** A state file with three slots, and the records of a later cycle in two
    batches with a failed fetch between them: slot 1 has left ["full"], slot
    2 is still ["available"], slot 3 is still ["full"], slot 4 is new. *)
Definition slot (day status : string) : SlotRecord :=
  mkSlot (Some day) (Some "13:00") (Some status) (Some "13:00")
         (<["service_cd" := "svc-1"]> (<["start_raw" := day +:+ " 13:00"]> ∅)).

Definition earlier_state : gmap string value :=
  <[_key_to_str (_slot_key (slot "2025-11-09" "full")) := JStr "full"]>
  (<[_key_to_str (_slot_key (slot "2025-11-10" "full")) := JStr "available"]>
  (<[_key_to_str (_slot_key (slot "2025-11-11" "full")) := JStr "full"]> ∅)).

Definition later_cycle : list (option (list SlotRecord)) :=
  [Some [slot "2025-11-09" "available"; slot "2025-11-10" "available"];
   None;
   Some [slot "2025-11-11" "full"; slot "2025-11-12" "other"]].

End Scenario.

(** The entry an old state file holds for a slot key: the key tuple as a
    JSON list. *)
Definition legacy_item (key_tuple : SlotKey) : value :=
  let '(d, t, cd, sr) := key_tuple in
  JArr [Json.of_opt d; Json.of_opt t; Json.of_opt cd; Json.of_opt sr].

(** The statuses [fetch_parsed_with_page] can assign. *)
Definition real_statuses : list string :=
  ["available"; "full"; "not_started"; "other"].

(** ** The normalizer in the words of the specification *)

(** Dedupe by slot key, first occurrence wins: the record at position [i]
    stays when no record before position [i] has its key. *)
Definition keep_first (l : list SlotRecord) : list SlotRecord :=
  concat (imap (λ i r, if decide (_slot_key r ∈ map _slot_key (take i l))
                       then [] else [r]) l).

(** Ascending order of the sort keys. *)
Definition key_le (a b : SlotRecord) : Prop :=
  Py.pair_ltb (Normalizer.sort_key b) (Normalizer.sort_key a) = false.

(** The key under which a record without date and time is sorted. *)
Definition sentinel : string * string := ("9999-12-31", "99:99").

(** One of the ten digits [0] to [9]. *)
Definition ascii_digit (c : ascii) : bool :=
  let n := nat_of_ascii c in bool_decide (48 ≤ n ∧ n ≤ 57)%nat.

Definition two_digits (a b : ascii) : nat :=
  10 * (nat_of_ascii a - 48) + (nat_of_ascii b - 48).

(** [YYYY-MM-DD] with a month from 01 to 12 and a day from 01 to 31. *)
Definition is_calendar_date (d : string) : bool :=
  match d with
  | String y1 (String y2 (String y3 (String y4 (String s1
      (String m1 (String m2 (String s2 (String d1 (String d2 EmptyString)))))))))
    =>
      ascii_digit y1 && ascii_digit y2 && ascii_digit y3
      && ascii_digit y4 && Parse.is_char "-" s1
      && ascii_digit m1 && ascii_digit m2 && Parse.is_char "-" s2
      && ascii_digit d1 && ascii_digit d2
      && bool_decide (1 ≤ two_digits m1 m2 ∧ two_digits m1 m2 ≤ 12)%nat
      && bool_decide (1 ≤ two_digits d1 d2 ∧ two_digits d1 d2 ≤ 31)%nat
  | _ => false
  end.

(** [HH:MM] with an hour up to 23 and a minute up to 59. *)
Definition is_clock_time (t : string) : bool :=
  match t with
  | String h1 (String h2 (String c (String n1 (String n2 EmptyString)))) =>
      ascii_digit h1 && ascii_digit h2 && Parse.is_char ":" c
      && ascii_digit n1 && ascii_digit n2
      && bool_decide (two_digits h1 h2 ≤ 23)%nat
      && bool_decide (two_digits n1 n2 ≤ 59)%nat
  | _ => false
  end.

(** [a < b] on strings, and on pairs of strings as Python compares tuples. *)
Definition slt (a b : string) : Prop := String.compare a b = Lt.

Definition plt (a b : string * string) : Prop :=
  slt a.1 b.1 ∨ (a.1 = b.1 ∧ slt a.2 b.2).

(** ** Further definitions: the rest of [app.py] and [scripts/poller.py] *)

(** [w'] is [w] after some appends: the three append-only files only grew,
    and the configuration files were not touched. *)
Definition extends (w w' : World) : Prop :=
  notification_log w `prefix_of` notification_log w'
  ∧ notifications_jsonl w `prefix_of` notifications_jsonl w'
  ∧ wire w `prefix_of` wire w'
  ∧ environ w' = environ w
  ∧ recipients_txt w' = recipients_txt w
  ∧ line_tokens_txt w' = line_tokens_txt w.

(** [l[start:]] for a Python list: a negative index counts from the end and
    is clamped at the beginning. *)
Definition slice_from {A} (start : Z) (l : list A) : list A :=
  if decide (start < 0)%Z
  then drop (Z.to_nat (Z.max 0 (Z.of_nat (length l) + start))) l
  else drop (Z.to_nat start) l.

(** [api_history]: the last [limit] lines of [notifications.jsonl], most
    recent first.  The lines are the entries [_append_history] wrote, which
    all parse; the web framework always supplies an integer [limit] (100
    when the query leaves it out). *)
Definition api_history (limit : Z) (w : World) : list Entry :=
  reverse (slice_from (- limit) (notifications_jsonl w)).

(** [api_check]: the records of one fetch that are not full, with the
    recipients on file; [None] is the error answer (status 500).  A missing
    [start] takes the path of an empty one. *)
Definition api_check (observe : string → option (list RawItem))
    (start : option string) (w : World)
  : option (list SlotRecord * list string) :=
  match fetch_parsed_impl observe (default EmptyString start) with
  | Some data =>
      Some (List.filter (λ d, bool_decide (Diff.current_status d ≠ "full")) data,
            _read_recipients w)
  | None => None
  end.

(** [dddd-dd-dd] and [dd:dd], where [d] is a character [\d] matches. *)
Definition is_date_shape (d : string) : bool :=
  match Utf8.chars d with
  | [y1; y2; y3; y4; s1; m1; m2; s2; d1; d2] =>
      Parse.digit y1 && Parse.digit y2 && Parse.digit y3 && Parse.digit y4
      && Parse.one "-" s1 && Parse.digit m1 && Parse.digit m2
      && Parse.one "-" s2 && Parse.digit d1 && Parse.digit d2
  | _ => false
  end.

Definition is_time_shape (t : string) : bool :=
  match Utf8.chars t with
  | [h1; h2; c; n1; n2] =>
      Parse.digit h1 && Parse.digit h2 && Parse.one ":" c
      && Parse.digit n1 && Parse.digit n2
  | _ => false
  end.

(** ** Reading back what [json.dumps] wrote for a slot key *)

Module Decode.

Definition hex_value (c : ascii) : option nat :=
  let n := nat_of_ascii c in
  if decide (48 ≤ n ∧ n ≤ 57)%nat then Some (n - 48)%nat
  else if decide (97 ≤ n ∧ n ≤ 102)%nat then Some (n - 87)%nat
  else None.

(** The character a two-character escape stands for. *)
Definition simple_escape (e : ascii) : option ascii :=
  let n := nat_of_ascii e in
  if decide (n = 34) then Some (ascii_of_nat 34)
  else if decide (n = 92) then Some (ascii_of_nat 92)
  else if decide (n = 110) then Some (ascii_of_nat 10)
  else if decide (n = 114) then Some (ascii_of_nat 13)
  else if decide (n = 116) then Some (ascii_of_nat 9)
  else if decide (n = 98) then Some (ascii_of_nat 8)
  else if decide (n = 102) then Some (ascii_of_nat 12)
  else None.

Definition push (c : ascii) (r : option (string * string))
  : option (string * string) :=
  match r with
  | Some (s, rest) => Some (String c s, rest)
  | None => None
  end.

(** The body of a string literal up to its closing quote, and what follows
    the quote. *)
Fixpoint string_body (s : string) : option (string * string) :=
  match s with
  | EmptyString => None
  | String c r =>
      if Parse.is_char (ascii_of_nat 34) c then Some (EmptyString, r)
      else if Parse.is_char (ascii_of_nat 92) c then
        match r with
        | String e r1 =>
            if Parse.is_char "u" e then
              match r1 with
              | String h1 (String h2 (String h3 (String h4 r2))) =>
                  match hex_value h1, hex_value h2, hex_value h3, hex_value h4
                  with
                  | Some 0, Some 0, Some a, Some b =>
                      push (ascii_of_nat (16 * a + b)) (string_body r2)
                  | _, _, _, _ => None
                  end
              | _ => None
              end
            else
              match simple_escape e with
              | Some c' => push c' (string_body r1)
              | None => None
              end
        | EmptyString => None
        end
      else push c (string_body r)
  end.

(** One element of the key list: [null] or a string literal. *)
Definition element (s : string) : option (option string * string) :=
  match s with
  | String c r =>
      if Parse.is_char (ascii_of_nat 34) c then
        match string_body r with
        | Some (x, rest) => Some (Some x, rest)
        | None => None
        end
      else
        match s with
        | String "n" (String "u" (String "l" (String "l" rest))) =>
            Some (None, rest)
        | _ => None
        end
  | EmptyString => None
  end.

(** What follows the prefix [p] of [s]. *)
Fixpoint expect (p : string) (s : string) : option string :=
  match p with
  | EmptyString => Some s
  | String a p' =>
      match s with
      | String b s' => if Parse.is_char a b then expect p' s' else None
      | EmptyString => None
      end
  end.

(** A list of four elements, as [_key_to_str] writes it. *)
Definition key (s : string) : option SlotKey :=
  s0 ← expect "[" s;
  '(d, s1) ← element s0;
  s2 ← expect ", " s1;
  '(t, s3) ← element s2;
  s4 ← expect ", " s3;
  '(cd, s5) ← element s4;
  s6 ← expect ", " s5;
  '(sr, s7) ← element s6;
  s8 ← expect "]" s7;
  if decide (s8 = EmptyString) then Some (d, t, cd, sr) else None.

End Decode.

(** ** The recipient file ([_write_recipients], [_add_recipient],
    [_remove_recipient], [api_add_recipient]) *)

Module Recipients.

Definition is_newline (c : ascii) : bool :=
  Parse.is_char (ascii_of_nat 10) c || Parse.is_char (ascii_of_nat 13) c.

(** What [readlines] returns for a text, under universal newlines: the
    lines, each up to its terminator ([\n], [\r\n] or [\r]). *)
Fixpoint lines_from (cur : string) (s : string) : list string :=
  match s with
  | EmptyString => if decide (cur = EmptyString) then [] else [cur]
  | String c r =>
      if Parse.is_char (ascii_of_nat 10) c
      then cur :: lines_from EmptyString r
      else if Parse.is_char (ascii_of_nat 13) c then
        match r with
        | String c' r' =>
            if Parse.is_char (ascii_of_nat 10) c'
            then cur :: lines_from EmptyString r'
            else cur :: lines_from EmptyString r
        | EmptyString => cur :: lines_from EmptyString r
        end
      else lines_from (cur +:+ String c EmptyString) r
  end.

(** The text [_write_recipients] writes: [e.strip() + '\n'] for every
    element. *)
Definition written_text (lst : list string) : string :=
  foldr (λ e acc, Py.strip e +:+ newline +:+ acc) EmptyString lst.

Definition put_recipients (file : option (list string)) (w : World) : World :=
  mkWorld (environ w) file (line_tokens_txt w) (notified_json w)
          (notification_log w) (notifications_jsonl w) (wire w).

Definition _write_recipients (lst : list string) (w : World) : bool * World :=
  (true, put_recipients (Some (lines_from EmptyString (written_text lst))) w).

Definition _add_recipient (email : string) (w : World) : bool * World :=
  let lst := _read_recipients w in
  if bool_decide (email ≠ EmptyString) && bool_decide (email ∉ lst)
  then _write_recipients (lst ++ [email]) w
  else (false, w).

Definition _remove_recipient (email : string) (w : World) : bool * World :=
  let lst := _read_recipients w in
  if bool_decide (email ≠ EmptyString) && bool_decide (email ∈ lst)
  then _write_recipients (List.filter (λ e, bool_decide (e ≠ email)) lst) w
  else (false, w).

(** [POST /api/recipients] with the value found under ["email"]; the
    answer is the HTTP status. *)
Definition api_add_recipient (field : option string) (w : World)
  : nat * World :=
  let email := Py.strip (Py.or_else field EmptyString) in
  if decide (email = EmptyString) then (400, w)
  else
    let '(ok, w') := _add_recipient email w in
    if ok then (200, w') else (400, w').

(** No line terminator inside. *)
Fixpoint no_newline (s : string) : bool :=
  match s with
  | EmptyString => true
  | String c r => negb (is_newline c) && no_newline r
  end.

(** A line that [_read_recipients] keeps. *)
Definition kept (l : string) : bool :=
  bool_decide (l ≠ EmptyString) && negb (Py.startswith "#" l).

(** The lines of the file hold no terminator except at their end. *)
Definition well_formed (w : World) : Prop :=
  ∀ lines l, recipients_txt w = Some lines → l ∈ lines →
             no_newline (Py.strip l) = true.

End Recipients.

(** ** [scripts/poller.py]: masking, environment files, backoff *)

Module Poller.

(** [str.upper] on an ASCII letter. *)
Definition upper_ascii (c : ascii) : ascii :=
  let n := nat_of_ascii c in
  if decide (97 ≤ n ∧ n ≤ 122)%nat then ascii_of_nat (n - 32) else c.

(** The characters outside ASCII whose upper case holds an ASCII letter,
    with that upper case. *)
Definition upper_special : list (string * string) :=
  [("ß", "SS"); ("ı", "I"); ("ŉ", "ʼN"); ("ſ", "S"); ("ǰ", "J̌");
   ("ẖ", "H̱"); ("ẗ", "T̈"); ("ẘ", "W̊"); ("ẙ", "Y̊"); ("ẚ", "Aʾ");
   ("ﬀ", "FF"); ("ﬁ", "FI"); ("ﬂ", "FL"); ("ﬃ", "FFI"); ("ﬄ", "FFL");
   ("ﬅ", "ST"); ("ﬆ", "ST")].

Fixpoint assoc (ch : string) (table : list (string * string)) : option string :=
  match table with
  | [] => None
  | (x, y) :: rest => if decide (ch = x) then Some y else assoc ch rest
  end.

Definition upper_char (ch : string) : string :=
  match ch with
  | String c EmptyString => String (upper_ascii c) EmptyString
  | _ => default ch (assoc ch upper_special)
  end.

(** [k.upper()] as far as a test [s in k.upper()] with an ASCII [s] can see
    it: the ASCII letters and the seventeen characters above are mapped as
    [str.upper] maps them; the upper case of any other character holds no
    ASCII character, and the character is left as it is. *)
Definition upper (s : string) : string :=
  Utf8.join (map upper_char (Utf8.chars s)).

Definition sensitive : list string := ["PASS"; "KEY"; "TOKEN"; "SECRET"].

(** [any(s in k.upper() for s in sensitive)] *)
Definition is_sensitive (k : string) : bool :=
  existsb (λ s, Py.contains s (upper k)) sensitive.

(** [len(v)] and [v[:n]] count characters, not bytes of the encoding. *)
Definition py_len (v : string) : nat := length (Utf8.chars v).

Definition first_chars (n : nat) (v : string) : string :=
  String.concat EmptyString (take n (Utf8.chars v)).

Definition _mask_val (k : string) (v : option string) : string :=
  match v with
  | None => EmptyString
  | Some v =>
      if decide (v = EmptyString) then EmptyString
      else if is_sensitive k then first_chars 4 v +:+ "..."
      else if decide (64 < py_len v)%nat then first_chars 64 v +:+ "..."
      else v
  end.

(** Text in which every character is one byte. *)
Fixpoint is_ascii (s : string) : bool :=
  match s with
  | EmptyString => true
  | String c r => bool_decide (nat_of_ascii c < 128)%nat && is_ascii r
  end.

(** The keys [dump_env_status] reports. *)
Definition reported_keys : list string :=
  ["SMTP_HOST"; "SMTP_PORT"; "SMTP_USER"; "SMTP_PASS"; "FROM_EMAIL";
   "SENDGRID_API_KEY"; "MAILGUN_API_KEY"; "MAILGUN_DOMAIN"; "POLL_INTERVAL"].

(** What [dump_env_status] writes after the timestamp. *)
Definition env_summary (env : gmap string string) : string :=
  "env: " +:+ String.concat ", "
                (map (λ k, k +:+ "=" +:+ _mask_val k (env !! k)) reported_keys).

(** One pass of the outer loop of [run_poller] that did not see [STOP]:
    either the browser session was created (and [backoff] reset to 1 before
    the pass ended), or the pass failed before that. *)
Inductive Pass := Launched | LaunchFailed.

Definition max_backoff : nat := 300.

(** The delay slept at the end of the pass, and the next [backoff]. *)
Definition pass (backoff : nat) (p : Pass) : nat * nat :=
  let b := match p with Launched => 1 | LaunchFailed => backoff end in
  (b, Nat.min max_backoff (b * 2)).

Fixpoint delays (backoff : nat) (passes : list Pass) : list nat :=
  match passes with
  | [] => []
  | p :: rest => (pass backoff p).1 :: delays (pass backoff p).2 rest
  end.

(** [run_poller] starts with [backoff = 1]. *)
Definition poller_delays (passes : list Pass) : list nat := delays 1 passes.

End Poller.

(** ** [scripts/monitor_poller.py]: the periodic summary of [monitor_loop] *)

Module Monitor.

(** An event: the time it was seen, in microseconds, and the line. *)
Definition Event : Type := Z * string.

Record Stats := mkStats {
  dry_run_events : list Event;
  smtp_fail_events : list Event;
  smtp_success : list Event;
}.

Definition minutes (n : Z) : Z := (n * 60 * 1000000)%Z.
Definition hours (n : Z) : Z := (n * 60 * 60 * 1000000)%Z.

(** [[e for e in events if e[0] >= cutoff]] *)
Definition since (cutoff : Z) (events : list Event) : list Event :=
  List.filter (λ e, (cutoff <=? e.1)%Z) events.

(** The messages of one summary, from the clock reading [now]. *)
Definition summary (now : Z) (s : Stats) : list string :=
  let cutoff := (now - minutes 10)%Z in
  let dry_recent := since cutoff (dry_run_events s) in
  let smtp_fail_recent := since cutoff (smtp_fail_events s) in
  let smtp_ok_recent := since cutoff (smtp_success s) in
  ["summary(last10m): dry_run=" +:+ pretty (length dry_recent)
     +:+ " smtp_fail=" +:+ pretty (length smtp_fail_recent)
     +:+ " smtp_ok=" +:+ pretty (length smtp_ok_recent)]
  ++ (if decide (1 ≤ length smtp_fail_recent)%nat
      then ["CRITICAL: SMTP failures seen in last 10m"] else [])
  ++ (if decide (5 ≤ length dry_recent)%nat
      then ["WARNING: many dry-run events in last 10m"] else []).

(** [# truncate old events], from a second clock reading. *)
Definition truncate (now : Z) (s : Stats) : Stats :=
  let cutoff2 := (now - hours 6)%Z in
  mkStats (since cutoff2 (dry_run_events s))
          (since cutoff2 (smtp_fail_events s))
          (since cutoff2 (smtp_success s)).

(** One turn of the [while True] loop: the messages written and the stats
    kept. *)
Definition turn (now1 now2 : Z) (s : Stats) : list string * Stats :=
  (summary now1 s, truncate now2 s).

(** The followers append the events they see. *)
Definition record (new : Stats) (s : Stats) : Stats :=
  mkStats (dry_run_events s ++ dry_run_events new)
          (smtp_fail_events s ++ smtp_fail_events new)
          (smtp_success s ++ smtp_success new).

End Monitor.

(** ** [scripts/poller.py]: environment files *)

Module EnvFile.

(** [ln.split('=', 1)]: [None] when there is no [=]. *)
Fixpoint split_eq (s : string) : option (string * string) :=
  match s with
  | EmptyString => None
  | String c r =>
      if Parse.is_char "=" c then Some (EmptyString, r)
      else match split_eq r with
           | Some (k, v) => Some (String c k, v)
           | None => None
           end
  end.

Fixpoint last_char (s : string) : option ascii :=
  match s with
  | EmptyString => None
  | String c EmptyString => Some c
  | String _ r => last_char r
  end.

Definition first_char (s : string) : option ascii :=
  match s with
  | EmptyString => None
  | String c _ => Some c
  end.

(** [v.startswith(q) and v.endswith(q)] for a one-character [q]. *)
Definition wrapped_in (q : ascii) (v : string) : bool :=
  bool_decide (first_char v = Some q) && bool_decide (last_char v = Some q).

(** [v[1:-1]] *)
Definition inner (v : string) : string :=
  String.substring 1 (String.length v - 2) v.

Definition unquote (v : string) : string :=
  if wrapped_in (ascii_of_nat 34) v || wrapped_in (ascii_of_nat 39) v
  then inner v else v.

Fixpoint has_nul (s : string) : bool :=
  match s with
  | EmptyString => false
  | String c r => Parse.is_char (ascii_of_nat 0) c || has_nul r
  end.

(** What one line of the file does: nothing, an assignment to
    [os.environ], or an exception ([os.environ] refuses an empty name and
    refuses a NUL character), which ends the reading of the file. *)
Inductive Effect :=
| Skip
| Assign (k v : string)
| Raise.

Definition parse_line (ln : string) : Effect :=
  let ln := Py.strip ln in
  if decide (ln = EmptyString) then Skip
  else if Py.startswith "#" ln then Skip
  else match split_eq ln with
       | None => Skip
       | Some (k, v) =>
           let k := Py.strip k in
           let v := unquote (Py.strip v) in
           if decide (k = EmptyString) then Raise
           else if has_nul k || has_nul v then Raise
           else Assign k v
       end.

Fixpoint load_lines (lines : list string) (env : gmap string string)
  : gmap string string :=
  match lines with
  | [] => env
  | ln :: rest =>
      match parse_line ln with
      | Skip => load_lines rest env
      | Assign k v => load_lines rest (<[k := v]> env)
      | Raise => env
      end
  end.

(** [_load_env_file]: a missing or unreadable file changes nothing. *)
Definition _load_env_file (file : option (list string))
    (env : gmap string string) : gmap string string :=
  match file with
  | Some lines => load_lines lines env
  | None => env
  end.

(** [load_env_files]: the system file, then the user file. *)
Definition load_env_files (system user : option (list string))
    (env : gmap string string) : gmap string string :=
  _load_env_file user (_load_env_file system env).

End EnvFile.
(** * Properties *)

(** ** Strings, characters and [str.strip] *)

Section TextFacts.

Implicit Types (s t cur : string) (l : list string).

Lemma append_nil_r s : s +:+ EmptyString = s.
Proof.
  induction s as [|c s IH]; [done|].
  change (String c (s +:+ EmptyString) = String c s). by f_equal.
Qed.

Lemma append_assoc (a b c : string) : (a +:+ b) +:+ c = a +:+ (b +:+ c).
Proof.
  induction a as [|x a IH]; [done|].
  change (String x ((a +:+ b) +:+ c) = String x (a +:+ (b +:+ c))).
  by f_equal.
Qed.

Lemma length_append (a b : string) :
  String.length (a +:+ b) = (String.length a + String.length b)%nat.
Proof.
  induction a as [|c a IH]; [done|].
  change (S (String.length (a +:+ b)) = S (String.length a + String.length b)).
  by rewrite IH.
Qed.

Lemma prefix_append (p x : string) : String.prefix p (p +:+ x) = true.
Proof.
  induction p as [|c p IH]; [by destruct x|].
  change (String.prefix (String c p) (String c (p +:+ x)) = true).
  cbn [String.prefix]. by destruct (ascii_dec c c).
Qed.

Lemma join_app l1 l2 : Utf8.join (l1 ++ l2) = Utf8.join l1 +:+ Utf8.join l2.
Proof.
  induction l1 as [|x l1 IH]; [done|].
  cbn [app Utf8.join]. by rewrite IH, append_assoc.
Qed.

(** Cutting a string into characters loses nothing. *)
Lemma join_chars_from p cur s :
  Utf8.join (Utf8.chars_from p cur s) = cur +:+ s.
Proof.
  revert p cur. induction s as [|c s IH]; intros p cur.
  - cbn [Utf8.chars_from]. rewrite append_nil_r.
    destruct (decide (cur = EmptyString)) as [->|]; [done|].
    cbn [Utf8.join]. apply append_nil_r.
  - cbn [Utf8.chars_from]. destruct p as [|p].
    + rewrite join_app, IH.
      destruct (decide (cur = EmptyString)) as [->|]; [done|].
      cbn [Utf8.join]. by rewrite append_nil_r.
    + rewrite IH. by rewrite append_assoc.
Qed.

Lemma join_chars s : Utf8.join (Utf8.chars s) = s.
Proof. unfold Utf8.chars. by rewrite join_chars_from. Qed.

Lemma split_at_app k s : (split_at k s).1 +:+ (split_at k s).2 = s.
Proof.
  revert s. induction k as [|k IH]; intros [|c r]; try done.
  cbn [split_at]. specialize (IH r). destruct (split_at k r) as [a b].
  cbn [fst snd] in *. change (String c (a +:+ b) = String c r). by f_equal.
Qed.

Lemma split_at_length k s :
  (String.length (split_at k s).1 ≤ k)%nat
  ∧ ((String.length (split_at k s).1 < k)%nat → (split_at k s).2 = EmptyString).
Proof.
  revert s. induction k as [|k IH]; intros [|c r]; cbn [split_at];
    try (cbn; split; [lia|intros; first [done|lia]]).
  specialize (IH r). destruct (split_at k r) as [a b]. cbn [fst snd] in *.
  cbn [String.length]. destruct IH as [H1 H2]. split; [lia|].
  intros H. apply H2. lia.
Qed.

Lemma split_at_exact (a y : string) :
  split_at (String.length a) (a +:+ y) = (a, y).
Proof.
  induction a as [|c a IH]; [by destruct y|].
  change (split_at (S (String.length a)) (String c (a +:+ y))
          = (String c a, y)).
  cbn [split_at]. by rewrite IH.
Qed.

Lemma split_at_short k (a : string) :
  (String.length a ≤ k)%nat → split_at k a = (a, EmptyString).
Proof.
  revert k. induction a as [|c a IH]; intros [|k] H; try done.
  - cbn [String.length] in H. lia.
  - cbn [split_at]. rewrite IH; [done|]. cbn [String.length] in H. lia.
Qed.

(** A character in progress takes the bytes it still waits for. *)
Lemma chars_from_split p cur s :
  cur ≠ EmptyString →
  Utf8.chars_from p cur s
  = (cur +:+ (split_at p s).1) :: Utf8.chars (split_at p s).2.
Proof.
  revert p cur. induction s as [|c s IH]; intros p cur Hcur.
  - cbn [Utf8.chars_from]. rewrite decide_False by done.
    destruct p; cbn [split_at fst snd]; by rewrite append_nil_r.
  - destruct p as [|p]; cbn [Utf8.chars_from split_at fst snd].
    + rewrite decide_False by done. rewrite append_nil_r.
      unfold Utf8.chars. cbn [Utf8.chars_from]. by rewrite decide_True.
    + rewrite IH by by destruct cur.
      destruct (split_at p s) as [a b]. cbn [fst snd].
      by rewrite append_assoc.
Qed.

Lemma chars_cons c r :
  Utf8.chars (String c r)
  = String c (split_at (Utf8.width c - 1) r).1
    :: Utf8.chars (split_at (Utf8.width c - 1) r).2.
Proof.
  unfold Utf8.chars at 1. cbn [Utf8.chars_from].
  rewrite decide_True by done. cbn [app].
  by rewrite chars_from_split.
Qed.

(** A complete character in front of a string is its first character. *)
Lemma chars_complete ch s :
  complete ch → Utf8.chars (ch +:+ s) = ch :: Utf8.chars s.
Proof.
  destruct ch as [|c a]; [done|]. cbn [complete]. intros Hlen.
  change (Utf8.chars (String c (a +:+ s)) = String c a :: Utf8.chars s).
  rewrite chars_cons, <- Hlen, split_at_exact. done.
Qed.

Lemma chars_join_complete l :
  Forall complete l → Utf8.chars (Utf8.join l) = l.
Proof.
  induction 1 as [|ch l Hch _ IH]; [done|].
  cbn [Utf8.join]. by rewrite chars_complete, IH.
Qed.

(** The first characters of a string form a string with those characters. *)
Lemma chars_join_take n s :
  Utf8.chars (Utf8.join (take n (Utf8.chars s))) = take n (Utf8.chars s).
Proof.
  revert s. induction n as [|n IH]; intros s; [done|].
  destruct s as [|c r]; [done|].
  rewrite chars_cons. cbn [take Utf8.join].
  pose proof (split_at_length (Utf8.width c - 1) r) as [Hle Hshort].
  destruct (split_at (Utf8.width c - 1) r) as [a b]. cbn [fst snd] in *.
  change (Utf8.chars (String c (a +:+ Utf8.join (take n (Utf8.chars b))))
          = String c a :: take n (Utf8.chars b)).
  rewrite chars_cons.
  destruct (decide (String.length a = Utf8.width c - 1)%nat) as [Heq|Hne].
  - rewrite <- Heq, split_at_exact. cbn [fst snd]. by rewrite IH.
  - rewrite Hshort by lia. change (Utf8.chars EmptyString) with (@nil string).
    rewrite take_nil. cbn [Utf8.join]. rewrite append_nil_r.
    rewrite split_at_short by done. done.
Qed.

Lemma chars_join_drop n s :
  Utf8.chars (Utf8.join (drop n (Utf8.chars s))) = drop n (Utf8.chars s).
Proof.
  revert s. induction n as [|n IH]; intros s.
  - by rewrite drop_0, join_chars.
  - destruct s as [|c r]; [done|]. rewrite chars_cons. cbn [drop]. apply IH.
Qed.

Lemma chars_join_range i j s :
  Utf8.chars (Utf8.join (take j (drop i (Utf8.chars s))))
  = take j (drop i (Utf8.chars s)).
Proof.
  rewrite <- (chars_join_drop i s). apply chars_join_take.
Qed.

Lemma lstrip_chars_drop l : ∃ i, Py.lstrip_chars l = drop i l.
Proof.
  induction l as [|ch l [i Hi]]; [by exists 0|]. cbn [Py.lstrip_chars].
  destruct (Unicode.space ch); [by exists (S i)|by exists 0].
Qed.

Lemma rstrip_chars_take l : ∃ j, Py.rstrip_chars l = take j l.
Proof.
  unfold Py.rstrip_chars.
  destruct (lstrip_chars_drop (reverse l)) as [i ->].
  exists (length l - i). by rewrite drop_reverse, reverse_involutive.
Qed.

Lemma lstrip_chars_head l :
  Py.lstrip_chars l = []
  ∨ ∃ ch r, Py.lstrip_chars l = ch :: r ∧ Unicode.space ch = false.
Proof.
  induction l as [|ch l IH]; [by left|]. cbn [Py.lstrip_chars].
  destruct (Unicode.space ch) eqn:Hc; [done|]. right. eauto.
Qed.

Lemma lstrip_chars_idem l :
  Py.lstrip_chars (Py.lstrip_chars l) = Py.lstrip_chars l.
Proof.
  destruct (lstrip_chars_head l) as [->|(ch & r & -> & Hc)]; [done|].
  cbn [Py.lstrip_chars]. by rewrite Hc.
Qed.

Lemma rstrip_chars_idem l :
  Py.rstrip_chars (Py.rstrip_chars l) = Py.rstrip_chars l.
Proof.
  unfold Py.rstrip_chars. by rewrite reverse_involutive, lstrip_chars_idem.
Qed.

(** Stripping on the right leaves a list stripped on the left as it is on
    the left. *)
Lemma lstrip_after_rstrip l :
  Py.lstrip_chars (Py.rstrip_chars (Py.lstrip_chars l))
  = Py.rstrip_chars (Py.lstrip_chars l).
Proof.
  destruct (rstrip_chars_take (Py.lstrip_chars l)) as [j ->].
  destruct (lstrip_chars_head l) as [->|(ch & r & -> & Hc)].
  - by rewrite take_nil.
  - destruct j as [|j]; [done|]. cbn [take Py.lstrip_chars]. by rewrite Hc.
Qed.

(** The characters of a stripped string. *)
Lemma strip_chars s :
  Utf8.chars (Py.strip s)
  = Py.rstrip_chars (Py.lstrip_chars (Utf8.chars s)).
Proof.
  unfold Py.strip.
  destruct (lstrip_chars_drop (Utf8.chars s)) as [i Hi].
  destruct (rstrip_chars_take (Py.lstrip_chars (Utf8.chars s))) as [j Hj].
  rewrite Hj, Hi. apply chars_join_range.
Qed.

Lemma strip_idem s : Py.strip (Py.strip s) = Py.strip s.
Proof.
  unfold Py.strip at 1. rewrite strip_chars.
  by rewrite lstrip_after_rstrip, rstrip_chars_idem.
Qed.

(** [t[:8]] is made of the first eight characters of [t]. *)
Lemma slice_to_masked t : masked t (Py.slice_to 8 t).
Proof.
  unfold masked, Py.slice_to. split; [apply chars_join_take|].
  rewrite <- (join_chars t) at 2.
  rewrite <- (take_drop 8 (Utf8.chars t)) at 2.
  rewrite join_app. apply prefix_append.
Qed.

End TextFacts.

(** ** Slot keys survive serialization *)

Lemma string_body_escape_char c t :
  Decode.string_body (Json.escape_char c +:+ t)
  = Decode.push c (Decode.string_body t).
Proof.
  destruct c as [[] [] [] [] [] [] [] []]; reflexivity.
Qed.

Lemma string_body_escape s rest :
  Decode.string_body (Json.escape s +:+ Json.dquote +:+ rest) = Some (s, rest).
Proof.
  induction s as [|c s IH]; [reflexivity|].
  cbn [Json.escape]. rewrite append_assoc, string_body_escape_char, IH.
  done.
Qed.

Lemma element_dumps o rest :
  Decode.element (Json.dumps (Json.of_opt o) +:+ rest) = Some (o, rest).
Proof.
  destruct o as [x|]; [|reflexivity].
  cbn [Json.of_opt Json.dumps]. unfold Json.quote.
  rewrite !append_assoc.
  change (Decode.element
            (String (ascii_of_nat 34)
                    (Json.escape x +:+ Json.dquote +:+ rest))
          = Some (Some x, rest)).
  cbn [Decode.element]. unfold Parse.is_char.
  rewrite bool_decide_eq_true_2 by done.
  by rewrite string_body_escape.
Qed.

Lemma expect_append p s : Decode.expect p (p +:+ s) = Some s.
Proof.
  induction p as [|c p IH]; [done|].
  change (Decode.expect (String c p) (String c (p +:+ s)) = Some s).
  cbn [Decode.expect]. unfold Parse.is_char.
  by rewrite bool_decide_eq_true_2.
Qed.

Lemma key_round_trip key_tuple :
  Decode.key (_key_to_str key_tuple) = Some key_tuple.
Proof.
  destruct key_tuple as [[[d t] cd] sr].
  unfold _key_to_str. cbn [Json.dumps map String.concat].
  unfold Decode.key.
  rewrite expect_append. cbn [mbind option_bind].
  rewrite !append_assoc.
  rewrite element_dumps. cbn [mbind option_bind].
  rewrite expect_append. cbn [mbind option_bind].
  rewrite element_dumps. cbn [mbind option_bind].
  rewrite expect_append. cbn [mbind option_bind].
  rewrite element_dumps. cbn [mbind option_bind].
  rewrite expect_append. cbn [mbind option_bind].
  rewrite element_dumps. cbn [mbind option_bind].
  done.
Qed.

Lemma key_to_str_inj (k1 k2 : SlotKey) :
  _key_to_str k1 = _key_to_str k2 → k1 = k2.
Proof.
  intros Heq.
  pose proof (key_round_trip k1) as H1. pose proof (key_round_trip k2) as H2.
  rewrite Heq in H1. congruence.
Qed.


(** ** Diff engine *)

(** The current status of a record is its status field, read as the empty
    string when it is missing. *)
Ltac status_is_field :=
  let c := fresh "c" in
  intros c; unfold Diff.current_status, Py.or_else;
  destruct (status c) as [?|];
  [by destruct (decide (_ = EmptyString))|done].

Section DiffFacts.

Implicit Types (prev m : gmap string value) (c : SlotRecord).
Implicit Types (l : list SlotRecord) (fetched : list (option (list SlotRecord))).

Lemma foldl_step prev l m produced :
  foldl (Diff.step prev) (m, produced) l
  = (record_all m l, produced ++ List.filter (Diff.notifiable prev) l).
Proof.
  revert m produced.
  induction l as [|c l IH]; intros m produced; simpl.
  - by rewrite app_nil_r.
  - rewrite IH. destruct (Diff.notifiable prev c); simpl.
    + by rewrite <- app_assoc.
    + done.
Qed.

Lemma foldl_batch prev fetched m produced :
  foldl (Diff.batch prev) (m, produced) fetched
  = (record_all m (Diff.observed fetched),
     produced ++ List.filter (Diff.notifiable prev) (Diff.observed fetched)).
Proof.
  revert m produced.
  induction fetched as [|o fetched IH]; intros m produced; simpl.
  - by rewrite app_nil_r.
  - destruct o as [items|]; simpl.
    + rewrite foldl_step, IH. unfold Diff.observed, record_all. simpl.
      rewrite foldl_app, List.filter_app, <- app_assoc. done.
    + rewrite IH. done.
Qed.

Lemma run_unfold prev fetched :
  Diff.run prev fetched
  = (record_all prev (Diff.observed fetched),
     List.filter (Diff.notifiable prev) (Diff.observed fetched)).
Proof. unfold Diff.run. by rewrite foldl_batch. Qed.


Lemma record_all_unseen m l k :
  (∀ c, c ∈ l → Diff.key_str c ≠ k) → record_all m l !! k = m !! k.
Proof.
  revert m. induction l as [|c l IH]; intros m Hk; simpl; [done|].
  rewrite IH.
  - apply lookup_insert_ne. apply Hk. left.
  - intros c' Hc'. apply Hk. by right.
Qed.


(** A key that was seen holds the status of one of its records. *)
Lemma record_all_seen_key m l k :
  k ∈ map Diff.key_str l →
  ∃ c', c' ∈ l ∧ Diff.key_str c' = k
        ∧ record_all m l !! k = Some (JStr (Diff.current_status c')).
Proof.
  revert m. induction l as [|x l IH]; intros m Hk; [by apply elem_of_nil in Hk|].
  simpl. destruct (decide (k ∈ map Diff.key_str l)) as [Hin|Hout].
  - destruct (IH (<[Diff.key_str x:=JStr (Diff.current_status x)]> m) Hin)
      as (c' & Hc' & Hkc & Hl).
    exists c'. split; [by right|]. done.
  - simpl in Hk. apply elem_of_cons in Hk as [Hx|Hk]; [|done].
    exists x. split; [left|]. split; [done|].
    rewrite record_all_unseen.
    + rewrite Hx. apply lookup_insert_eq.
    + intros c' Hc' Heq. apply Hout, list_elem_of_In, in_map_iff.
      exists c'. split; [done|]. by apply list_elem_of_In.
Qed.

Lemma record_all_seen m l c :
  c ∈ l →
  ∃ c', c' ∈ l ∧ Diff.key_str c' = Diff.key_str c
        ∧ record_all m l !! Diff.key_str c = Some (JStr (Diff.current_status c')).
Proof.
  intros Hc. apply record_all_seen_key, list_elem_of_In, in_map_iff.
  exists c. split; [done|]. by apply list_elem_of_In.
Qed.

Lemma ne_str_spec (x : option value) (s : string) :
  Json.ne_str x s = true ↔ x ≠ Some (JStr s).
Proof.
  unfold Json.ne_str. destruct x as [[]|]; try (split; [congruence|done]).
  rewrite bool_decide_eq_true. split; intros H; congruence.
Qed.

Lemma notifiable_spec prev c :
  Diff.notifiable prev c = true ↔
  Diff.current_status c ≠ "full"
  ∧ prev !! Diff.key_str c ≠ Some (JStr (Diff.current_status c)).
Proof.
  unfold Diff.notifiable.
  rewrite andb_true_iff, bool_decide_eq_true, ne_str_spec. done.
Qed.

(** C1: the records a cycle produces are the observed records, in order,
    that pass the test of the diff loop, and a record passes exactly when its
    current status is not ["full"] and differs from what the loaded snapshot
    holds for its slot key; a key without an entry differs; and two records
    read the same entry of the snapshot only if they have the same slot
    key. *)
Theorem notifiable_iff_not_full_and_changed prev fetched :
  let produced := (Diff.run prev fetched).2 in
  let previous c := prev !! _key_to_str (_slot_key c) in
  let current c := default EmptyString (status c) in
  produced = List.filter (Diff.notifiable prev) (Diff.observed fetched)
  ∧ (∀ c, Diff.notifiable prev c = true ↔
          current c ≠ "full" ∧ previous c ≠ Some (JStr (current c)))
  ∧ (∀ c, c ∈ produced ↔
          c ∈ Diff.observed fetched
          ∧ current c ≠ "full" ∧ previous c ≠ Some (JStr (current c)))
  ∧ (∀ c, previous c = None →
          (Diff.notifiable prev c = true ↔ current c ≠ "full"))
  ∧ (∀ c1 c2, _key_to_str (_slot_key c1) = _key_to_str (_slot_key c2) →
              _slot_key c1 = _slot_key c2).
Proof.
  cbv zeta.
  assert (∀ c, Diff.notifiable prev c = true ↔
               default EmptyString (status c) ≠ "full"
               ∧ prev !! _key_to_str (_slot_key c)
                 ≠ Some (JStr (default EmptyString (status c)))) as Hspec.
  { intros c. rewrite notifiable_spec.
    assert (∀ c, Diff.current_status c = default EmptyString (status c))
      as Hcs by status_is_field.
    rewrite Hcs. done. }
  split; [by rewrite run_unfold|]. split; [exact Hspec|].
  split; [|split].
  - intros c. rewrite run_unfold. cbn [snd].
    rewrite list_elem_of_In, filter_In, <- list_elem_of_In, Hspec. done.
  - intros c Hnone. rewrite Hspec, Hnone.
    split; [by intros [? _] | by intros ?; split].
  - intros c1 c2. apply key_to_str_inj.
Qed.

End DiffFacts.

(** ** State store *)

Lemma dict_of_from (fields : list (string * value)) (m0 : gmap string value) :
  NoDup fields.*1 →
  foldl (λ m kv, <[kv.1 := kv.2]> m) m0 fields = list_to_map fields ∪ m0.
Proof.
  revert m0. induction fields as [|[k v] fields IH]; intros m0 Hnd; simpl.
  - by rewrite (left_id_L ∅ (∪)).
  - apply NoDup_cons in Hnd as [Hk Hnd]. rewrite IH by done.
    rewrite <- insert_union_l. apply symmetry, insert_union_r.
    by apply not_elem_of_list_to_map_1.
Qed.

(** What [_save_notified] writes, [_load_notified] reads back. *)
Lemma load_save (d : gmap string value) :
  Store._load_notified (Store._save_notified d) = d.
Proof.
  unfold Store._save_notified, Store._load_notified, Store.dict_of.
  rewrite dict_of_from by apply NoDup_fst_map_to_list.
  rewrite (right_id_L ∅ (∪)). apply list_to_map_to_list.
Qed.



(** ** The diff on concrete records *)

Lemma notifiable_iff_not_full_and_changed_witness :
  (Diff.run Scenario.earlier_state Scenario.later_cycle).2
  = [Scenario.slot "2025-11-09" "available"; Scenario.slot "2025-11-12" "other"]
  ∧ (Scenario.slot "2025-11-09" "available"
     ∈ (Diff.run Scenario.earlier_state Scenario.later_cycle).2)
  ∧ (Scenario.slot "2025-11-10" "available"
     ∉ (Diff.run Scenario.earlier_state Scenario.later_cycle).2)
  ∧ (Scenario.slot "2025-11-11" "full"
     ∉ (Diff.run Scenario.earlier_state Scenario.later_cycle).2).
Proof.
  pose proof (notifiable_iff_not_full_and_changed Scenario.earlier_state
                Scenario.later_cycle) as (Heq & _ & Hin & _).
  cbv zeta in Heq, Hin. split; [|split; [|split]].
  - rewrite Heq. vm_compute. reflexivity.
  - apply Hin. split; [|split].
    + vm_compute. left.
    + discriminate.
    + vm_compute. discriminate.
  - intros H. apply Hin in H as (_ & _ & H). apply H.
    vm_compute. reflexivity.
  - intros H. apply Hin in H as (_ & H & _). by apply H.
Defined.

(** Status sequence [full, available] for one key: silent on the first
    poll, one notifiable record on the second; [available, full]: the
    second poll is silent and stores ["full"]. *)
Example transition_and_non_transition :
  let full := [Some (parse_page [Scenario.slot_full])] in
  let available := [Some (parse_page [Scenario.slot_available])] in
  let after_full := Diff.run ∅ full in
  let after_available := Diff.run ∅ available in
  length after_full.2 = 0
  ∧ length (Diff.run after_full.1 available).2 = 1
  ∧ length (Diff.run after_available.1 full).2 = 0
  ∧ map snd (map_to_list (Diff.run after_available.1 full).1) = [JStr "full"].
Proof. repeat split; vm_compute; reflexivity. Qed.
(** ** Dispatcher *)

Section DispatchFacts.

Context (http_post : nat → Request → Reply).
Context (smtp_deliver : nat → SmtpJob → option string).
Context (utcnow : nat → string).
Context (httpx_import : option string).
Context (py_int : string → option Z).
Context (email_message : string → string → string → string → option string).

Local Abbreviation http_provider := (http_provider http_post utcnow httpx_import).
Local Abbreviation sendgrid := (sendgrid http_post utcnow httpx_import).
Local Abbreviation mailgun := (mailgun http_post utcnow httpx_import).
Local Abbreviation read_smtp_port := (read_smtp_port py_int).
Local Abbreviation build_message := (build_message email_message).
Local Abbreviation smtp_block := (smtp_block smtp_deliver utcnow).
Local Abbreviation smtp_or_dry_run :=
  (smtp_or_dry_run smtp_deliver utcnow py_int email_message).
Local Abbreviation send_email :=
  (send_email http_post smtp_deliver utcnow httpx_import py_int email_message).
Local Abbreviation send_line := (send_line http_post utcnow httpx_import).
Local Abbreviation smtp_configured := (smtp_configured py_int).
Local Abbreviation entry := (email_entry utcnow).
Local Abbreviation answer := (answer_entry utcnow).

Lemma calls_since_app w w' l :
  wire w' = wire w ++ l → calls_since w w' = l.
Proof. intros H. unfold calls_since. rewrite H. by rewrite drop_app_length. Qed.

Lemma audits_since_app w w' l :
  notifications_jsonl w' = notifications_jsonl w ++ l → audits_since w w' = l.
Proof. intros H. unfold audits_since. rewrite H. by rewrite drop_app_length. Qed.

(** What one HTTP provider block does, case by case. *)
Lemma http_provider_cases label method req subject recipients w :
  let n := length (wire w) in
  let r := http_provider label method req subject recipients w in
  same_setup w r.2 ∧
  ( (* the import or the request raised: nothing audited, fall through *)
    (r.1 = None
     ∧ notifications_jsonl r.2 = notifications_jsonl w
     ∧ ((httpx_import ≠ None ∧ wire r.2 = wire w)
        ∨ (httpx_import = None ∧ wire r.2 = wire w ++ [HttpCall req]
           ∧ ∃ e, http_post n req = Raised e)))
    ∨ (* the provider answered: one call, one entry, return *)
    (∃ code text,
       httpx_import = None ∧ http_post n req = Response code text
       ∧ r.1 = Some (accepted code)
       ∧ wire r.2 = wire w ++ [HttpCall req]
       ∧ notifications_jsonl r.2
         = notifications_jsonl w
           ++ [answer w recipients subject method code text]) ).
Proof.
  intros n r. subst n r.
  unfold http_provider, post, same_setup, answer_entry, email_entry.
  destruct httpx_import as [e|] eqn:Himp; simpl.
  { split; [done|]. left. repeat split; try done. left. done. }
  destruct (http_post (length (wire w)) req) as [code text|e] eqn:Hreply; simpl.
  - destruct (accepted code) eqn:Hacc; simpl.
    + split; [done|]. right. exists code, text.
      rewrite Hacc. repeat split; done.
    + split; [done|]. right. exists code, text.
      rewrite Hacc. repeat split; done.
  - split; [done|]. left. repeat split; try done. right. eauto.
Qed.

Lemma same_setup_refl w : same_setup w w.
Proof. by repeat split. Qed.

Lemma same_setup_trans w1 w2 w3 :
  same_setup w1 w2 → same_setup w2 w3 → same_setup w1 w3.
Proof.
  unfold same_setup. intros (?&?&?&?) (?&?&?&?).
  repeat split; congruence.
Qed.

Lemma same_setup_env w w' : same_setup w w' → environ w' = environ w.
Proof. by intros (?&_). Qed.

Local Abbreviation sg_calls := (sendgrid_calls httpx_import).
Local Abbreviation sg_silent := (sendgrid_silent http_post httpx_import).
Local Abbreviation mg_calls := (mailgun_calls httpx_import).
Local Abbreviation mg_silent := (mailgun_silent http_post httpx_import).
Local Abbreviation mg_at := (mailgun_at httpx_import).
Local Abbreviation sm_at := (smtp_at httpx_import).

Lemma truthy_Some_inv (o : option string) :
  Py.truthy o = true → ∃ s, o = Some s ∧ s ≠ EmptyString.
Proof.
  destruct o as [s|]; simpl; [|done].
  rewrite bool_decide_eq_true. eauto.
Qed.

(** The SendGrid block: silent, or answered with one audited call. *)
Lemma sendgrid_stage subject body recipients w :
  let r := sendgrid subject body recipients w in
  let req := sendgrid_request subject body recipients w in
  same_setup w r.2
  ∧ wire r.2 = wire w ++ sg_calls subject body recipients w
  ∧ ( (r.1 = None ∧ sg_silent subject body recipients w
       ∧ notifications_jsonl r.2 = notifications_jsonl w)
      ∨ (∃ code text,
           sendgrid_configured w = true ∧ httpx_import = None
           ∧ http_post (length (wire w)) req = Response code text
           ∧ r.1 = Some (accepted code)
           ∧ notifications_jsonl r.2
             = notifications_jsonl w
               ++ [answer w recipients subject "sendgrid" code text]) ).
Proof.
  intros r req. subst r req.
  unfold sendgrid, sg_calls, sg_silent, sendgrid_configured,
    sendgrid_request.
  destruct (environ w !! "SENDGRID_API_KEY") as [key|] eqn:Hkey; simpl.
  2:{ split; [apply same_setup_refl|]. rewrite app_nil_r. split; [done|].
      left. repeat split; try done. by left. }
  destruct (bool_decide (key ≠ EmptyString)) eqn:Hk; simpl.
  2:{ split; [apply same_setup_refl|]. rewrite app_nil_r. split; [done|].
      left. repeat split; try done. by left. }
  set (req := SendGridPost key (from_addr w) recipients subject body).
  destruct (http_provider_cases "SendGrid" "sendgrid" req subject recipients w)
    as (Hsetup & [(Hnone & Hhist & Hwire)|(code & text & Himp & Hreply & Hres & Hwire & Hhist)]).
  - split; [done|]. split.
    + destruct Hwire as [[Hne Hwire]|(Himp & Hwire & _)].
      * rewrite bool_decide_eq_false_2 by done. by rewrite app_nil_r.
      * rewrite bool_decide_eq_true_2 by done. done.
    + left. repeat split; try done.
      destruct Hwire as [[Hne _]|(_ & _ & Hr)]; [right; by left|right; by right].
  - split; [done|]. split.
    + rewrite bool_decide_eq_true_2 by done. done.
    + right. exists code, text. repeat split; done.
Qed.

(** The Mailgun block, entered in world [w]. *)
Lemma mailgun_stage subject body recipients w :
  let r := mailgun subject body recipients w in
  let req := mailgun_request subject body recipients w in
  same_setup w r.2
  ∧ wire r.2 = wire w ++ mg_calls subject body recipients w
  ∧ ( (r.1 = None
       ∧ (mailgun_configured w = false ∨ httpx_import ≠ None
          ∨ ∃ e, http_post (length (wire w)) req = Raised e)
       ∧ notifications_jsonl r.2 = notifications_jsonl w)
      ∨ (∃ code text,
           mailgun_configured w = true ∧ httpx_import = None
           ∧ http_post (length (wire w)) req = Response code text
           ∧ r.1 = Some (accepted code)
           ∧ notifications_jsonl r.2
             = notifications_jsonl w
               ++ [answer w recipients subject "mailgun" code text]) ).
Proof.
  intros r req. subst r req.
  unfold mailgun, mg_calls, mailgun_configured, mailgun_request.
  destruct (environ w !! "MAILGUN_API_KEY") as [key|] eqn:Hkey; simpl.
  2:{ split; [apply same_setup_refl|]. rewrite app_nil_r. split; [done|].
      left. repeat split; try done. by left. }
  destruct (environ w !! "MAILGUN_DOMAIN") as [domain|] eqn:Hdom; simpl.
  2:{ rewrite andb_false_r. simpl.
      split; [apply same_setup_refl|]. rewrite app_nil_r. split; [done|].
      left. repeat split; try done. by left. }
  destruct (bool_decide (key ≠ EmptyString) && bool_decide (domain ≠ EmptyString))
    eqn:Hk; simpl.
  2:{ split; [apply same_setup_refl|]. rewrite app_nil_r. split; [done|].
      left. repeat split; try done. by left. }
  set (req := MailgunPost domain key (from_addr w) recipients subject body).
  destruct (http_provider_cases "Mailgun" "mailgun" req subject recipients w)
    as (Hsetup & [(Hnone & Hhist & Hwire)|(code & text & Himp & Hreply & Hres & Hwire & Hhist)]).
  - split; [done|]. split.
    + destruct Hwire as [[Hne Hwire]|(Himp & Hwire & _)].
      * rewrite bool_decide_eq_false_2 by done. by rewrite app_nil_r.
      * rewrite bool_decide_eq_true_2 by done. done.
    + left. repeat split; try done.
      destruct Hwire as [[Hne _]|(_ & _ & Hr)]; [right; by left|right; by right].
  - split; [done|]. split.
    + rewrite bool_decide_eq_true_2 by done. done.
    + right. exists code, text. repeat split; done.
Qed.

(** The [if smtp_host and smtp_port:] block and the dry run after it. *)
Lemma smtp_block_cases port subject body recipients w :
  read_smtp_port w = Returned port →
  let r := smtp_block port subject body recipients w in
  same_setup w r.2
  ∧ ( (smtp_configured w = true
       ∧ ∃ job,
           wire r.2 = wire w ++ [SmtpCall job]
           ∧ ( (smtp_deliver (length (wire w)) job = None
                ∧ r.1 = true
                ∧ ∃ detail,
                    notifications_jsonl r.2
                    = notifications_jsonl w
                      ++ [entry w recipients subject "smtp" "success" detail])
               ∨ (∃ err, smtp_deliver (length (wire w)) job = Some err
                         ∧ r.1 = false
                         ∧ notifications_jsonl r.2
                           = notifications_jsonl w
                             ++ [entry w recipients subject "smtp" "failed"
                                       err]) ))
      ∨ (smtp_configured w = false
         ∧ r.1 = false
         ∧ wire r.2 = wire w
         ∧ notifications_jsonl r.2
           = notifications_jsonl w
             ++ [entry w recipients subject "dry-run" "dry-run" EmptyString]) ).
Proof.
  intros Hport r. subst r.
  unfold smtp_block, smtp_configured, email_entry. rewrite Hport.
  destruct (environ w !! "SMTP_HOST") as [host|] eqn:Hhost; simpl.
  2:{ split; [done|]. right. repeat split; eauto. }
  destruct port as [p|]; simpl.
  2:{ rewrite andb_false_r. split; [done|]. right. repeat split; eauto. }
  destruct (bool_decide (host ≠ EmptyString) && bool_decide (p ≠ 0%Z)) eqn:Hc;
    simpl.
  2:{ split; [done|]. right. repeat split; eauto. }
  set (job := mkSmtp host p (smtp_credentials w) (from_addr w) recipients
                     subject body).
  destruct (smtp_deliver (length (wire w)) job) as [err|] eqn:Hsend; simpl.
  - split; [done|]. left. split; [done|]. exists job.
    split; [done|]. right. exists err. done.
  - split; [done|]. left. split; [done|]. exists job.
    split; [done|]. left. split; [done|]. split; [done|]. eauto.
Qed.

(** From the port to the dry run, entered in world [w]. *)
Lemma smtp_stage subject body recipients w :
  let r := smtp_or_dry_run subject body recipients w in
  same_setup w r.2
  ∧ ( (∃ err, read_smtp_port w = Exception err ∧ r = (Exception err, w))
      ∨ (∃ port err, read_smtp_port w = Returned port
           ∧ build_message subject body recipients w = Some err
           ∧ r = (Exception err, w))
      ∨ (∃ port, read_smtp_port w = Returned port
           ∧ build_message subject body recipients w = None
           ∧ r = (Returned (smtp_block port subject body recipients w).1,
                  (smtp_block port subject body recipients w).2)) ).
Proof.
  intros r. subst r. unfold smtp_or_dry_run.
  destruct (read_smtp_port w) as [port|err] eqn:Hport.
  2:{ split; [apply same_setup_refl|]. left. eauto. }
  destruct (build_message subject body recipients w) as [err|] eqn:Hmsg.
  { split; [apply same_setup_refl|]. right. left. eauto. }
  pose proof (smtp_block_cases port subject body recipients w Hport) as [Hs _].
  split; [by destruct (smtp_block port subject body recipients w)|].
  right. right. exists port.
  by destruct (smtp_block port subject body recipients w).
Qed.

Lemma same_setup_mailgun w w' subject body recipients :
  same_setup w w' →
  mailgun_configured w' = mailgun_configured w
  ∧ mailgun_request subject body recipients w'
    = mailgun_request subject body recipients w
  ∧ mg_calls subject body recipients w'
    = mg_calls subject body recipients w.
Proof.
  intros (Henv & _).
  unfold mg_calls, mailgun_configured, mailgun_request, from_addr.
  by rewrite Henv.
Qed.

Lemma same_setup_smtp w w' subject body recipients :
  same_setup w w' →
  read_smtp_port w' = read_smtp_port w
  ∧ smtp_configured w' = smtp_configured w
  ∧ build_message subject body recipients w'
    = build_message subject body recipients w.
Proof.
  intros (Henv & _).
  unfold smtp_configured, read_smtp_port, build_message, from_addr.
  by rewrite Henv.
Qed.

Lemma entry_same_audit w w' recipients subject method status detail :
  notifications_jsonl w' = notifications_jsonl w →
  entry w' recipients subject method status detail
  = entry w recipients subject method status detail.
Proof. intros H. unfold email_entry. by rewrite H. Qed.

(** When the chain is left without an answer: what the port and the message
    allow. *)
Local Abbreviation after_chain subject body recipients w out silent :=
 ((∃ err, read_smtp_port w = Exception err
     ∧ out.1 = Exception err
     ∧ calls_since w out.2 = silent%list ∧ audits_since w out.2 = [])
  ∨ (∃ port err, read_smtp_port w = Returned port
       ∧ build_message subject body recipients w = Some err
       ∧ out.1 = Exception err
       ∧ calls_since w out.2 = silent%list ∧ audits_since w out.2 = [])
  ∨ (smtp_configured w = true
     ∧ build_message subject body recipients w = None
     ∧ ∃ job,
         calls_since w out.2 = (silent ++ [SmtpCall job])%list
         ∧ ( (smtp_deliver (sm_at subject body recipients w) job = None
              ∧ out.1 = Returned true
              ∧ ∃ detail,
                  audits_since w out.2
                  = [entry w recipients subject "smtp" "success" detail])
             ∨ (∃ err, smtp_deliver (sm_at subject body recipients w) job
                       = Some err
                  ∧ out.1 = Returned false
                  ∧ audits_since w out.2
                    = [entry w recipients subject "smtp" "failed" err]) ))
  ∨ (smtp_configured w = false
     ∧ (∃ port, read_smtp_port w = Returned port)
     ∧ build_message subject body recipients w = None
     ∧ out.1 = Returned false
     ∧ calls_since w out.2 = silent%list
     ∧ audits_since w out.2
       = [entry w recipients subject "dry-run" "dry-run" EmptyString])).

(** Every path through [send_email], with what it leaves behind. *)
Lemma send_email_paths subject body recipients w :
  let out := send_email subject body recipients w in
  let sgc := sg_calls subject body recipients w in
  let mgc := mg_calls subject body recipients w in
  let sgreq := sendgrid_request subject body recipients w in
  let mgreq := mailgun_request subject body recipients w in
  same_setup w out.2
  ∧ ( (∃ code text,
         sendgrid_configured w = true ∧ httpx_import = None
         ∧ http_post (length (wire w)) sgreq = Response code text
         ∧ out.1 = Returned (accepted code)
         ∧ calls_since w out.2 = [HttpCall sgreq]
         ∧ audits_since w out.2
           = [answer w recipients subject "sendgrid" code text])
      ∨ (sg_silent subject body recipients w
         ∧ ∃ code text,
             mailgun_configured w = true ∧ httpx_import = None
             ∧ http_post (mg_at subject body recipients w) mgreq
               = Response code text
             ∧ out.1 = Returned (accepted code)
             ∧ calls_since w out.2 = sgc ++ [HttpCall mgreq]
             ∧ audits_since w out.2
               = [answer w recipients subject "mailgun" code text])
      ∨ (sg_silent subject body recipients w
         ∧ mg_silent subject body recipients w
         ∧ after_chain subject body recipients w out (sgc ++ mgc)) ).
Proof.
  intros out sgc mgc sgreq mgreq. subst out sgc mgc sgreq mgreq.
  unfold send_email.
  pose proof (sendgrid_stage subject body recipients w) as Hsg.
  destruct (sendgrid subject body recipients w) as [o1 w1]. simpl in Hsg.
  destruct Hsg as (Hset1 & Hwire1 & [(-> & Hsil1 & Hhist1)|Hans1]).
  2:{ destruct Hans1 as (code & text & Hc & Hi & Hr & -> & Hh).
      simpl. split; [done|]. left. exists code, text.
      repeat split; try done.
      - apply calls_since_app. rewrite Hwire1.
        unfold sendgrid_calls. rewrite Hc, Hi. done.
      - by apply audits_since_app. }
  pose proof (mailgun_stage subject body recipients w1) as Hmg.
  destruct (same_setup_mailgun w w1 subject body recipients Hset1)
    as (Hmc & Hmr & Hmcalls).
  rewrite Hmc, Hmr, Hmcalls in Hmg.
  assert (length (wire w1) = mg_at subject body recipients w) as Hat.
  { rewrite Hwire1. unfold mailgun_at. by rewrite length_app. }
  rewrite Hat in Hmg.
  destruct (mailgun subject body recipients w1) as [o2 w2]. simpl in Hmg.
  destruct Hmg as (Hset2 & Hwire2 & [(-> & Hsil2 & Hhist2)|Hans2]).
  2:{ destruct Hans2 as (code & text & Hc & Hi & Hr & -> & Hh).
      simpl. split; [by eapply same_setup_trans|]. right. left.
      split; [done|]. exists code, text.
      repeat split; try done.
      - apply calls_since_app. rewrite Hwire2, Hwire1, <- app_assoc.
        unfold mailgun_calls. rewrite Hc, Hi. done.
      - apply audits_since_app. rewrite Hh, Hhist1.
        unfold answer_entry. by rewrite (entry_same_audit w w1). }
  assert (same_setup w w2) as Hset by by eapply same_setup_trans.
  assert (wire w2 = wire w ++ sg_calls subject body recipients w
                     ++ mg_calls subject body recipients w) as Hwire
    by by rewrite Hwire2, Hwire1, <- app_assoc.
  assert (notifications_jsonl w2 = notifications_jsonl w) as Hhist
    by by rewrite Hhist2.
  assert (length (wire w2) = sm_at subject body recipients w) as Hsat.
  { rewrite Hwire. unfold smtp_at, mailgun_at. rewrite !length_app. lia. }
  pose proof (smtp_stage subject body recipients w2) as Hsm.
  destruct (same_setup_smtp w w2 subject body recipients Hset)
    as (Hport & Hconf & Hmsg).
  rewrite Hport, Hmsg in Hsm.
  destruct (smtp_or_dry_run subject body recipients w2) as [o3 w3]. simpl in Hsm.
  destruct Hsm as (Hset3 & Hsm).
  split; [by eapply same_setup_trans|]. simpl. right. right.
  split; [done|]. split; [done|]. cbn [fst snd].
  destruct Hsm as [(err & Hp & Heq)|[(port & err & Hp & Hm & Heq)|(port & Hp & Hm & Heq)]].
  - left. injection Heq as -> ->. exists err. repeat split; try done.
    + by apply calls_since_app.
    + apply (audits_since_app _ _ []). by rewrite Hhist, app_nil_r.
  - right. left. injection Heq as -> ->. exists port, err.
    repeat split; try done.
    + by apply calls_since_app.
    + apply (audits_since_app _ _ []). by rewrite Hhist, app_nil_r.
  - rewrite <- Hport in Hp.
    pose proof (smtp_block_cases port subject body recipients w2 Hp) as Hb.
    injection Heq as -> ->. cbv zeta in Hb. rewrite Hconf, Hsat in Hb.
    destruct Hb as (_ & [(Hc & job & Hw & Hres)|(Hc & Hres & Hw & Hh)]).
    + right. right. left. split; [done|]. split; [done|]. exists job. split.
      * apply calls_since_app. rewrite Hw, Hwire. by rewrite <- !app_assoc.
      * destruct Hres as [(Hd & -> & detail & Hh)|(err & Hd & -> & Hh)].
        -- left. split; [done|]. split; [done|]. exists detail.
           apply audits_since_app. rewrite Hh, Hhist.
           by rewrite (entry_same_audit w w2).
        -- right. exists err. split; [done|]. split; [done|].
           apply audits_since_app. rewrite Hh, Hhist.
           by rewrite (entry_same_audit w w2).
    + right. right. right. rewrite Hres. rewrite Hport in Hp.
      split; [done|]. split; [eauto|]. split; [done|]. split; [done|]. split.
      * apply calls_since_app. by rewrite Hw, Hwire.
      * apply audits_since_app. rewrite Hh, Hhist.
        by rewrite (entry_same_audit w w2).
Qed.

Lemma sendgrid_calls_attempt p subject body recipients w :
  Exists (λ c, p c = true) (sg_calls subject body recipients w)
  ↔ sendgrid_configured w = true ∧ httpx_import = None
    ∧ p (HttpCall (sendgrid_request subject body recipients w)) = true.
Proof.
  unfold sendgrid_calls.
  destruct (sendgrid_configured w); simpl.
  2:{ rewrite Exists_nil. naive_solver. }
  case_bool_decide as Hi; rewrite ?Exists_cons, ?Exists_nil; naive_solver.
Qed.

Lemma mailgun_calls_attempt p subject body recipients w :
  Exists (λ c, p c = true) (mg_calls subject body recipients w)
  ↔ mailgun_configured w = true ∧ httpx_import = None
    ∧ p (HttpCall (mailgun_request subject body recipients w)) = true.
Proof.
  unfold mailgun_calls.
  destruct (mailgun_configured w); simpl.
  2:{ rewrite Exists_nil. naive_solver. }
  case_bool_decide as Hi; rewrite ?Exists_cons, ?Exists_nil; naive_solver.
Qed.

Lemma answered_not_silent_sendgrid subject body recipients w code text :
  http_post (length (wire w)) (sendgrid_request subject body recipients w)
  = Response code text →
  sendgrid_configured w = true → httpx_import = None →
  ¬ sg_silent subject body recipients w.
Proof.
  intros Hr Hc Hi [H|[H|[e H]]]; congruence.
Qed.

Lemma answered_not_silent_mailgun subject body recipients w code text :
  http_post (mg_at subject body recipients w)
            (mailgun_request subject body recipients w)
  = Response code text →
  mailgun_configured w = true → httpx_import = None →
  ¬ mg_silent subject body recipients w.
Proof.
  intros Hr Hc Hi [H|[H|[e H]]]; congruence.
Qed.


Lemma send_email_raised_audit subject body recipients w err :
  (send_email subject body recipients w).1 = Exception err →
  same_setup w (send_email subject body recipients w).2.
Proof.
  intros _. by destruct (send_email_paths subject body recipients w) as (? & _).
Qed.

(** Who is attempted, on every path through [send_email]. *)
Lemma email_attempts subject body recipients w :
  let out := send_email subject body recipients w in
  (attempted is_sendgrid w out.2
   ↔ sendgrid_configured w = true ∧ httpx_import = None)
  ∧ (attempted is_mailgun w out.2
     ↔ mailgun_configured w = true ∧ httpx_import = None
       ∧ sg_silent subject body recipients w)
  ∧ (attempted is_smtp w out.2
     ↔ smtp_configured w = true
       ∧ build_message subject body recipients w = None
       ∧ sg_silent subject body recipients w
       ∧ mg_silent subject body recipients w).
Proof.
  intros out. subst out.
  destruct (send_email_paths subject body recipients w) as (Hset & Hpaths).
  unfold attempted.
  destruct Hpaths as
    [(code & text & Hc & Hi & Hr & Hres & Hcalls & Haud)
    |[(Hsil & code & text & Hc & Hi & Hr & Hres & Hcalls & Haud)
     |(Hsil1 & Hsil2 & Hsm)]].
  - pose proof (answered_not_silent_sendgrid _ _ _ _ _ _ Hr Hc Hi) as Hns.
    rewrite Hcalls. rewrite !Exists_cons, !Exists_nil. simpl. naive_solver.
  - pose proof (answered_not_silent_mailgun _ _ _ _ _ _ Hr Hc Hi) as Hns.
    rewrite Hcalls.
    rewrite !Exists_app, !Exists_cons, !Exists_nil, !sendgrid_calls_attempt.
    simpl. naive_solver.
  - destruct Hsm as
      [(err & Hp & Hres & Hcalls & Haud)
      |[(port & err & Hp & Hm & Hres & Hcalls & Haud)
       |[(Hc & Hm & job & Hcalls & Hres)
        |(Hc & Hp & Hm & Hres & Hcalls & Haud)]]];
      rewrite Hcalls;
      rewrite ?Exists_app, ?Exists_cons, ?Exists_nil,
        ?sendgrid_calls_attempt, ?mailgun_calls_attempt; simpl.
    + assert (smtp_configured w = false) as Hnc.
      { unfold smtp_configured. rewrite Hp. apply andb_false_r. }
      rewrite Hnc. naive_solver.
    + rewrite Hm. naive_solver.
    + naive_solver.
    + rewrite Hc. naive_solver.
Qed.

(** An attempted HTTP provider that answers was not silent. *)
Lemma answered_sendgrid subject body recipients w code text :
  attempted is_sendgrid w (send_email subject body recipients w).2 →
  http_post (length (wire w)) (sendgrid_request subject body recipients w)
  = Response code text →
  ¬ sg_silent subject body recipients w.
Proof.
  destruct (email_attempts subject body recipients w) as (H1 & _).
  intros [Hc Hi]%H1 Hr. by eapply answered_not_silent_sendgrid.
Qed.

Lemma answered_mailgun subject body recipients w code text :
  attempted is_mailgun w (send_email subject body recipients w).2 →
  http_post (mg_at subject body recipients w)
            (mailgun_request subject body recipients w)
  = Response code text →
  ¬ mg_silent subject body recipients w.
Proof.
  destruct (email_attempts subject body recipients w) as (_ & H2 & _).
  intros (Hc & Hi & _)%H2 Hr. by eapply answered_not_silent_mailgun.
Qed.

(** C3 (amended): in [send_email] an HTTP provider is attempted exactly when
    it is configured, [httpx] can be imported, and every earlier provider
    was unconfigured or its attempt raised; SMTP is attempted exactly when
    it is configured (host set, port set and read by [int] as a number other
    than zero), the message can be built, and both HTTP providers were
    unconfigured or raised.  A provider that answers ends the chain: the
    dispatch returns [True] for the status codes 200 and 202 (for SMTP, when
    the session raises nothing) and [False] otherwise, and no later provider
    is attempted, so a success is the last call made.  When SendGrid's
    request raises while Mailgun is configured and answers 200 or 202, the
    dispatch returns success with Mailgun's attempt on the audit log. *)
Theorem provider_attempted_iff_earlier_silent subject body recipients w :
  let out := send_email subject body recipients w in
  let sgreq := sendgrid_request subject body recipients w in
  let mgreq := mailgun_request subject body recipients w in
  (attempted is_sendgrid w out.2
   ↔ sendgrid_configured w = true ∧ httpx_import = None)
  ∧ (attempted is_mailgun w out.2
     ↔ mailgun_configured w = true ∧ httpx_import = None
       ∧ sg_silent subject body recipients w)
  ∧ (attempted is_smtp w out.2
     ↔ smtp_configured w = true
       ∧ build_message subject body recipients w = None
       ∧ sg_silent subject body recipients w
       ∧ mg_silent subject body recipients w)
  ∧ (∀ code text,
       attempted is_sendgrid w out.2 →
       http_post (length (wire w)) sgreq = Response code text →
       out.1 = Returned (bool_decide (code = 200 ∨ code = 202)%Z)
       ∧ ¬ attempted is_mailgun w out.2 ∧ ¬ attempted is_smtp w out.2)
  ∧ (∀ code text,
       attempted is_mailgun w out.2 →
       http_post (mg_at subject body recipients w) mgreq = Response code text →
       out.1 = Returned (bool_decide (code = 200 ∨ code = 202)%Z)
       ∧ ¬ attempted is_smtp w out.2)
  ∧ (attempted is_smtp w out.2 →
     ∃ job, last (calls_since w out.2) = Some (SmtpCall job)
            ∧ out.1 = Returned
                        (bool_decide
                           (smtp_deliver (sm_at subject body recipients w) job
                            = None)))
  ∧ (out.1 = Returned true →
     ∃ earlier c e, calls_since w out.2 = earlier ++ [c]
                    ∧ audits_since w out.2 = [e] ∧ e_status e = "success")
  ∧ (sendgrid_configured w = true → mailgun_configured w = true →
     httpx_import = None →
     (∃ err, http_post (length (wire w)) sgreq = Raised err) →
     (∃ code text, http_post (S (length (wire w))) mgreq = Response code text
                   ∧ (code = 200 ∨ code = 202)%Z) →
     out.1 = Returned true
     ∧ calls_since w out.2 = [HttpCall sgreq; HttpCall mgreq]
     ∧ ∃ e, audits_since w out.2 = [e]
            ∧ e_method e = "mailgun" ∧ e_status e = "success").
Proof.
  intros out sgreq mgreq. subst out sgreq mgreq.
  destruct (send_email_paths subject body recipients w) as (Hset & Hpaths).
  destruct (email_attempts subject body recipients w) as (H1 & H2 & H3).
  pose proof (answered_sendgrid subject body recipients w) as Hsg_ans.
  pose proof (answered_mailgun subject body recipients w) as Hmg_ans.
  set (out := send_email subject body recipients w) in *.
  split; [exact H1|]. split; [exact H2|]. split; [exact H3|].
  destruct Hpaths as
    [(code & text & Hc & Hi & Hr & Hres & Hcalls & Haud)
    |[(Hsil & code & text & Hc & Hi & Hr & Hres & Hcalls & Haud)
     |(Hsil1 & Hsil2 & Hsm)]].
  - (* SendGrid answered *)
    pose proof (answered_not_silent_sendgrid _ _ _ _ _ _ Hr Hc Hi) as Hns.
    split; [|split; [|split; [|split]]].
    + intros code' text' _ Hr'. assert (code' = code) as -> by congruence.
      split; [done|]. rewrite H2, H3. tauto.
    + intros code' text' (_ & _ & ?)%H2. done.
    + intros (_ & _ & ? & _)%H3. done.
    + intros Heq. exists [], (HttpCall (sendgrid_request subject body recipients w)).
      eexists. split; [done|]. split; [done|].
      unfold answer_entry, email_entry. cbn [e_status].
      rewrite Hres in Heq. injection Heq as ->. done.
    + intros _ _ _ [err Herr]. congruence.
  - (* Mailgun answered *)
    pose proof (answered_not_silent_mailgun _ _ _ _ _ _ Hr Hc Hi) as Hns.
    split; [|split; [|split; [|split]]].
    + intros code' text' Ha Hr'. exfalso. by eapply Hsg_ans.
    + intros code' text' _ Hr'. assert (code' = code) as -> by congruence.
      split; [done|]. rewrite H3. tauto.
    + intros (_ & _ & _ & ?)%H3. done.
    + intros Heq. eexists _, _, _. split; [done|]. split; [done|].
      unfold answer_entry, email_entry. cbn [e_status].
      rewrite Hres in Heq. injection Heq as ->. done.
    + intros Hsc _ _ _ (code' & text' & Hr' & Hacc).
      unfold mailgun_at, sendgrid_calls in Hr.
      rewrite Hsc, Hi in Hr. simpl in Hr.
      rewrite Nat.add_1_r in Hr.
      assert (code = code') as -> by congruence.
      assert (accepted code' = true) as Ha
        by by apply bool_decide_eq_true.
      rewrite Hres, Ha, Hcalls, Haud.
      split; [done|]. split.
      * unfold sendgrid_calls. rewrite Hsc, Hi. done.
      * eexists. split; [done|]. unfold answer_entry, email_entry.
        cbn [e_method e_status]. by rewrite Ha.
  - (* neither HTTP provider answered *)
    assert (sendgrid_configured w = true → mailgun_configured w = true →
      httpx_import = None →
      (∃ err, http_post (length (wire w))
                (sendgrid_request subject body recipients w) = Raised err) →
      (∃ code text, http_post (S (length (wire w)))
                      (mailgun_request subject body recipients w)
                    = Response code text ∧ (code = 200 ∨ code = 202)%Z) →
      False) as Hno.
    { intros Hsc Hmc Hi _ (code & text & Hr & _).
      eapply answered_not_silent_mailgun; try done.
      unfold mailgun_at, sendgrid_calls.
      rewrite Hsc, Hi. simpl. rewrite Nat.add_1_r. done. }
    split; [|split; [|split; [|split]]].
    + intros code text Ha Hr. exfalso. by eapply Hsg_ans.
    + intros code text Ha Hr. exfalso. by eapply Hmg_ans.
    + intros (Hc & Hm & _)%H3.
      destruct Hsm as
        [(err & Hp & Hres & Hcalls & Haud)
        |[(port & err & Hp & Hm' & Hres & Hcalls & Haud)
         |[(_ & _ & job & Hcalls & Hres)
          |(Hc' & _)]]].
      * unfold smtp_configured in Hc. rewrite Hp, andb_false_r in Hc. done.
      * congruence.
      * exists job. rewrite Hcalls, last_snoc. split; [done|].
        destruct Hres as [(Hd & -> & _)|(err & Hd & -> & _)]; rewrite Hd.
        -- by rewrite bool_decide_eq_true_2.
        -- by rewrite bool_decide_eq_false_2.
      * congruence.
    + intros Hret.
      destruct Hsm as
        [(err & Hp & Hres & Hcalls & Haud)
        |[(port & err & Hp & Hm' & Hres & Hcalls & Haud)
         |[(_ & _ & job & Hcalls & Hres)
          |(_ & _ & _ & Hres & _)]]]; try congruence.
      destruct Hres as [(_ & _ & detail & Haud)|(err & _ & Hf & _)];
        [|congruence].
      eexists _, _, _. split; [exact Hcalls|]. split; [exact Haud|]. done.
    + intros. exfalso. by apply Hno.
Qed.


(** One iteration of the loop of [send_line]. *)
Lemma line_step_spec message b w t :
  let r := line_step http_post utcnow message (b, w) t in
  same_setup w r.2
  ∧ wire r.2 = wire w ++ [HttpCall (LinePost t message)]
  ∧ (∃ e, notifications_jsonl r.2 = notifications_jsonl w ++ [e]
          ∧ line_entry message t e)
  ∧ (r.1 = true ↔
     b = true
     ∨ ∃ text, http_post (length (wire w)) (LinePost t message)
               = Response 200 text).
Proof.
  intros r. subst r. unfold line_step, post.
  assert (∀ ts status detail,
    status = "success" ∨ status = "failed" →
    line_entry message t
      (mkEntry ts "line" None (Some [Py.slice_to 8 t]) None (Some message)
               status detail)) as Hentry.
  { intros ts status detail Hs. exists (Py.slice_to 8 t).
    split; [apply slice_to_masked|]. done. }
  destruct (http_post (length (wire w)) (LinePost t message))
    as [code text|err] eqn:Hreply; simpl.
  - case_bool_decide as Hcode; simpl.
    + subst code. split; [done|]. split; [done|]. split.
      * eexists. split; [done|]. apply Hentry. by left.
      * split; [|done]. intros _. right. eauto.
    + split; [done|]. split; [done|]. split.
      * eexists. split; [done|]. apply Hentry. by right.
      * split; [by left|]. intros [?|[text' ?]]; [done|congruence].
  - split; [done|]. split; [done|]. split.
    + eexists. split; [done|]. apply Hentry. by right.
    + split; [by left|]. intros [?|[text' ?]]; [done|congruence].
Qed.

Lemma line_loop message tokens b w :
  let out := foldl (line_step http_post utcnow message) (b, w) tokens in
  same_setup w out.2
  ∧ wire out.2 = wire w ++ map (λ t, HttpCall (LinePost t message)) tokens
  ∧ (∃ entries,
       notifications_jsonl out.2 = notifications_jsonl w ++ entries
       ∧ Forall2 (line_entry message) tokens entries)
  ∧ (out.1 = true ↔
     b = true
     ∨ ∃ i t text, tokens !! i = Some t
         ∧ http_post (length (wire w) + i) (LinePost t message)
           = Response 200 text).
Proof.
  revert b w. induction tokens as [|t tokens IH]; intros b w;
    cbv zeta in *; cbn [foldl map].
  - split; [apply same_setup_refl|]. rewrite app_nil_r. split; [done|].
    split; [exists []; by rewrite app_nil_r|].
    split; [by left|]. intros [?|(i & t & text & Hl & _)]; done.
  - pose proof (line_step_spec message b w t) as Hstep.
    destruct (line_step http_post utcnow message (b, w) t) as [b1 w1].
    simpl in Hstep. destruct Hstep as (Hs1 & Hw1 & (e & Hh1 & He) & Hb1).
    destruct (IH b1 w1) as (Hs2 & Hw2 & (entries & Hh2 & Hes) & Hb2).
    split; [eapply same_setup_trans; [exact Hs1|exact Hs2]|].
    split; [by rewrite Hw2, Hw1, <- app_assoc|].
    split.
    { exists (e :: entries). split.
      - by rewrite Hh2, Hh1, <- app_assoc.
      - by constructor. }
    rewrite Hb2, Hb1. rewrite Hw1, length_app. simpl. split.
    + intros [[?|[text Hr]]|(i & t' & text & Hl & Hr)].
      * by left.
      * right. exists 0, t, text. rewrite Nat.add_0_r. done.
      * right. exists (S i), t', text. split; [done|].
        replace (length (wire w) + S i) with (length (wire w) + 1 + i) by lia.
        done.
    + intros [?|(i & t' & text & Hl & Hr)].
      * left. by left.
      * destruct i as [|i]; simpl in Hl.
        -- left. right. exists text. rewrite Nat.add_0_r in Hr. congruence.
        -- right. exists i, t', text. split; [done|].
           replace (length (wire w) + 1 + i) with (length (wire w) + S i) by lia.
           done.
Qed.


(** C6: [send_line] posts to every token of the list, in order, whatever
    the earlier answers were, and returns [True] exactly when one of those
    posts was answered with status 200. *)
Theorem fan_out_attempts_every_token message tokens w :
  let out := send_line message tokens w in
  (httpx_import = None →
   calls_since w out.2 = map (λ t, HttpCall (LinePost t message)) tokens)
  ∧ (httpx_import ≠ None → calls_since w out.2 = [])
  ∧ (out.1 = true ↔
     ∃ i t text, calls_since w out.2 !! i = Some (HttpCall (LinePost t message))
       ∧ http_post (length (wire w) + i) (LinePost t message)
         = Response 200 text).
Proof.
  intros out. subst out. unfold send_line.
  destruct tokens as [|t tokens].
  { simpl. unfold calls_since. simpl. rewrite drop_all.
    repeat split; try done. intros (i & t & text & Hl & _). done. }
  destruct httpx_import as [err|] eqn:Hi.
  { simpl. unfold calls_since. simpl. rewrite drop_all.
    repeat split; try done. intros (i & t' & text & Hl & _). done. }
  destruct (line_loop message (t :: tokens) false w)
    as (_ & Hw & _ & Hb).
  rewrite (calls_since_app _ _ _ Hw).
  split; [done|]. split; [done|].
  rewrite Hb. split.
  - intros [?|(i & t' & text & Hl & Hr)]; [done|].
    exists i, t', text. split; [|done].
    rewrite list_lookup_fmap, Hl. done.
  - intros (i & t' & text & Hl & Hr). right.
    exists i, t', text. split; [|done].
    rewrite list_lookup_fmap in Hl.
    destruct ((t :: tokens) !! i) as [t''|]; simpl in Hl; [|done].
    by injection Hl as ->.
Qed.

End DispatchFacts.

(** ** The dispatcher on concrete worlds *)

(** C3, as stated, fails: SendGrid is configured and its attempt fails with
    status 500, Mailgun is configured and would accept, yet Mailgun is never
    attempted and the dispatch returns [False]. *)
Lemma answering_provider_blocks_fallback :
  let w := Scenario.configured Scenario.two_http in
  let out := send_email Scenario.sendgrid_rejects Scenario.smtp_ok
               Scenario.clock None Scenario.int_of Scenario.message_ok
               "subject" "body" Scenario.to w in
  sendgrid_configured w = true
  ∧ mailgun_configured w = true
  ∧ Scenario.sendgrid_rejects 0
      (sendgrid_request "subject" "body" Scenario.to w)
    = Response 500 "Internal Server Error"
  ∧ (∀ n, Scenario.sendgrid_rejects n
            (mailgun_request "subject" "body" Scenario.to w)
          = Response 200 "OK")
  ∧ ¬ attempted is_mailgun w out.2
  ∧ out.1 = Returned false
  ∧ map e_method (audits_since w out.2) = ["sendgrid"].
Proof.
  repeat split; try (vm_compute; reflexivity).
  unfold attempted. vm_compute.
  intros H. inversion H as [? ? Hc|? ? Ht]; [discriminate|inversion Ht].
Qed.

Lemma provider_attempted_iff_earlier_silent_witness :
  let w := Scenario.configured Scenario.two_http in
  let out := send_email Scenario.sendgrid_times_out Scenario.smtp_ok
               Scenario.clock None Scenario.int_of Scenario.message_ok
               "subject" "body" Scenario.to w in
  out.1 = Returned true
  ∧ calls_since w out.2
    = [HttpCall (sendgrid_request "subject" "body" Scenario.to w);
       HttpCall (mailgun_request "subject" "body" Scenario.to w)]
  ∧ ∃ e, audits_since w out.2 = [e]
         ∧ e_method e = "mailgun" ∧ e_status e = "success".
Proof.
  intros w out.
  pose proof (provider_attempted_iff_earlier_silent
                Scenario.sendgrid_times_out Scenario.smtp_ok Scenario.clock
                None Scenario.int_of Scenario.message_ok
                "subject" "body" Scenario.to w)
    as (_ & _ & _ & _ & _ & _ & _ & H).
  apply H.
  - vm_compute; reflexivity.
  - vm_compute; reflexivity.
  - reflexivity.
  - exists "timed out". vm_compute; reflexivity.
  - exists 200%Z, "OK". split; [vm_compute; reflexivity|by left].
Defined.





(** The entries of that fan-out hold the first eight characters of each
    token, also where a character takes more than one byte. *)
Example token_prefix_counts_characters :
  let line := send_line Scenario.all_accepted Scenario.clock None
                "message" ["tokenAAAAAAAAAAAA"; "ééééééééééAB"]
                Scenario.blank in
  map e_tokens (notifications_jsonl line.2)
  = [Some ["tokenAAA"]; Some ["éééééééé"]].
Proof. vm_compute; reflexivity. Qed.

Lemma fan_out_attempts_every_token_witness :
  let w := Scenario.blank in
  let out := send_line Scenario.second_refused Scenario.clock None
               "message" Scenario.three_tokens w in
  calls_since w out.2
  = map (λ t, HttpCall (LinePost t "message")) Scenario.three_tokens
  ∧ out.1 = true
  ∧ map e_status (audits_since w out.2) = ["success"; "failed"; "success"].
Proof.
  intros w out.
  pose proof (fan_out_attempts_every_token
                Scenario.second_refused Scenario.clock None
                "message" Scenario.three_tokens w) as (Hcalls & _ & Hres).
  split; [apply Hcalls; reflexivity|]. split.
  - apply Hres. exists 0, "tokenAAAAAAAAAAAA", "ok".
    split; vm_compute; reflexivity.
  - vm_compute; reflexivity.
Defined.


(** ** One notification cycle *)

Section CycleFacts.

Context (http_post : nat → Request → Reply).
Context (smtp_deliver : nat → SmtpJob → option string).
Context (utcnow : nat → string).
Context (httpx_import : option string).
Context (observe : string → option (list RawItem)).
Context (py_int : string → option Z).
Context (email_message : string → string → string → string → option string).

Local Abbreviation send_email :=
  (send_email http_post smtp_deliver utcnow httpx_import py_int email_message).
Local Abbreviation notify_once_for_starts :=
  (notify_once_for_starts http_post smtp_deliver utcnow httpx_import observe
     py_int email_message).
Local Abbreviation fetched_for starts :=
  (map (fetch_parsed_impl observe) starts).
Local Abbreviation sg_silent := (sendgrid_silent http_post httpx_import).
Local Abbreviation mg_silent := (mailgun_silent http_post httpx_import).
Local Abbreviation read_smtp_port := (read_smtp_port py_int).
Local Abbreviation build_message := (build_message email_message).


(** The shape of a cycle: the diff decides, the dispatch may run, the new
    state is written unless the dispatch raised. *)
Lemma notify_once_shape starts w :
  let prev := Store._load_notified (notified_json w) in
  let seen := Diff.observed (fetched_for starts) in
  let produced := List.filter (Diff.notifiable prev) seen in
  let summary := mkSummary (length produced) (map _slot_key produced)
                           (_read_recipients w) in
  let out := notify_once_for_starts starts w in
  ( (produced = [] ∨ _read_recipients w = [])
    ∧ out = (Returned summary,
             put_notified (Store._save_notified (record_all prev seen)) w) )
  ∨ ( produced ≠ [] ∧ _read_recipients w ≠ []
      ∧ let mail := send_email (subject_of produced) (body_of produced)
                               (_read_recipients w) w in
        match mail.1 with
        | Returned _ =>
            out = (Returned summary,
                   put_notified (Store._save_notified (record_all prev seen))
                                mail.2)
        | Exception e => out = (Exception e, mail.2)
        end ).
Proof.
  cbv zeta. unfold notify_once_for_starts.
  rewrite run_unfold.
  set (prev := Store._load_notified (notified_json w)).
  set (seen := Diff.observed (fetched_for starts)).
  destruct (List.filter (Diff.notifiable prev) seen) as [|p produced] eqn:Hp.
  { left. split; [by left|done]. }
  destruct (_read_recipients w) as [|r to] eqn:Hr.
  { left. split; [by right|done]. }
  right. split; [done|]. split; [done|].
  destruct (send_email _ _ _ w) as [[b|e] w1]; done.
Qed.




End CycleFacts.

(** ** Running the diff twice *)

Lemma filter_all_false {A} (f : A → bool) (l : list A) :
  (∀ x, x ∈ l → f x = false) → List.filter f l = [].
Proof.
  induction l as [|x l IH]; intros H; simpl; [done|].
  rewrite (H x) by left. apply IH. intros y Hy. apply H. by right.
Qed.

(** C9 (amended): when the records of a cycle that share a key agree on the
    status (as they do when the keys are pairwise distinct), running the
    diff again on the same records against the state the first run saved
    yields no notifiable record. *)
Theorem second_run_is_silent prev fetched :
  consistent (Diff.observed fetched) →
  let snapshot :=
    Store._load_notified (Store._save_notified (Diff.run prev fetched).1) in
  (Diff.run snapshot fetched).2 = [].
Proof.
  intros Hcons snapshot. subst snapshot.
  rewrite load_save, !run_unfold. cbn [fst snd].
  apply filter_all_false. intros c Hc.
  destruct (Diff.notifiable _ c) eqn:Hn; [|done].
  apply notifiable_spec in Hn as [_ Hn]. exfalso. apply Hn.
  destruct (record_all_seen prev _ c Hc) as (c' & Hc' & Hk & ->).
  by rewrite (Hcons c' c Hc' Hc Hk).
Qed.

Lemma second_run_is_silent_witness :
  let fetched := map (fetch_parsed_impl Scenario.steady) Scenario.starts in
  let snapshot :=
    Store._load_notified (Store._save_notified (Diff.run ∅ fetched).1) in
  (Diff.run snapshot fetched).2 = [].
Proof.
  intros fetched.
  apply (second_run_is_silent ∅ fetched).
  intros c1 c2 H1 H2 _. subst fetched.
  vm_compute in H1. vm_compute in H2.
  apply list_elem_of_singleton in H1, H2. by subst.
Defined.

(** C9, as stated, fails: the two fetches of one cycle show the same slot
    with different statuses; the first run stores the later one, and the
    second run over the identical records notifies the earlier one again. *)
Lemma second_run_renotifies_flapping_slot :
  let run := notify_once_for_starts Scenario.all_accepted Scenario.smtp_ok
               Scenario.clock None Scenario.flapping Scenario.int_of
               Scenario.message_ok Scenario.starts in
  let fetched := map (fetch_parsed_impl Scenario.flapping) Scenario.starts in
  let first := run Scenario.blank in
  let second := run first.2 in
  map (fmap length) fetched = [Some 1; Some 1]
  ∧ (∃ s, first.1 = Returned s ∧ new_count s = 2)
  ∧ (∃ s, second.1 = Returned s ∧ new_count s = 1)
  ∧ length (Diff.run (Store._load_notified
                        (Store._save_notified (Diff.run ∅ fetched).1))
                     fetched).2 = 1.
Proof.
  repeat split; try (vm_compute; reflexivity).
  - eexists. split; vm_compute; reflexivity.
  - eexists. split; vm_compute; reflexivity.
Qed.

(** ** The cycle on concrete worlds *)





(** ** Legacy state files *)

Lemma legacy_fold_lookup (items : list value) (m0 : gmap string value) k :
  foldl (λ out item, <[Store.legacy_key item := JStr Store.placeholder]> out)
        m0 items !! k
  = if decide (k ∈ map Store.legacy_key items)
    then Some (JStr Store.placeholder) else m0 !! k.
Proof.
  revert m0. induction items as [|item items IH]; intros m0; cbn [foldl map].
  - rewrite decide_False; [done|]. by intros H%elem_of_nil.
  - rewrite IH. destruct (decide (k ∈ map Store.legacy_key items)) as [Hin|Hin].
    + rewrite decide_True by by right. done.
    + destruct (decide (k = Store.legacy_key item)) as [->|Hne].
      * rewrite decide_True by left. apply lookup_insert_eq.
      * rewrite decide_False.
        -- by apply lookup_insert_ne.
        -- intros [?|?]%elem_of_cons; done.
Qed.

Lemma legacy_key_of_slot_key key_tuple :
  Store.legacy_key (legacy_item key_tuple) = _key_to_str key_tuple.
Proof. by destruct key_tuple as [[[d t] cd] sr]. Qed.

Lemma classify_real icon_class icon_color bg text :
  Parse.classify icon_class icon_color bg text ∈ real_statuses.
Proof.
  unfold Parse.classify, real_statuses.
  repeat case_match; set_solver.
Qed.

(** C7: loading a state file of the old shape (a list of key tuples) gives
    every migrated key the status ["notified"], which is none of the
    statuses the parser assigns; so a slot whose key was migrated and that
    is observed as ["available"] (or with any status other than ["full"]
    that the parser assigns) is notifiable. *)
Theorem legacy_keys_get_distinct_placeholder items :
  let m := Store._load_notified (ReadOk (JArr items)) in
  (∀ k v, m !! k = Some v → v = JStr Store.placeholder)
  ∧ (∀ item, item ∈ items →
       m !! Store.legacy_key item = Some (JStr Store.placeholder))
  ∧ (Store.placeholder ∉ real_statuses)
  ∧ (∀ icon_class icon_color bg text,
       Parse.classify icon_class icon_color bg text ∈ real_statuses)
  ∧ (∀ c, legacy_item (_slot_key c) ∈ items →
       m !! Diff.key_str c = Some (JStr Store.placeholder)
       ∧ (status c = Some "available" → Diff.notifiable m c = true)
       ∧ ((Diff.current_status c ∈ real_statuses) →
          (Diff.current_status c ≠ "full") → Diff.notifiable m c = true)).
Proof.
  intros m. subst m. unfold Store._load_notified.
  split; [|split; [|split; [|split]]].
  - intros k v. rewrite legacy_fold_lookup, lookup_empty.
    case_decide; congruence.
  - intros item Hin. rewrite legacy_fold_lookup.
    rewrite decide_True; [done|].
    apply list_elem_of_In, in_map, list_elem_of_In, Hin.
  - unfold real_statuses, Store.placeholder. set_solver.
  - apply classify_real.
  - intros c Hin.
    assert (foldl (λ out item,
                     <[Store.legacy_key item := JStr Store.placeholder]> out)
                  (∅ : gmap string value) items !! Diff.key_str c
            = Some (JStr Store.placeholder)) as Hk.
    { rewrite legacy_fold_lookup. rewrite decide_True; [done|].
      unfold Diff.key_str. rewrite <- legacy_key_of_slot_key.
      apply list_elem_of_In, in_map, list_elem_of_In, Hin. }
    split; [done|]. split.
    + intros Hs. apply notifiable_spec.
      unfold Diff.current_status. rewrite Hs. simpl.
      split; [done|]. rewrite Hk. by intros [= ?].
    + intros Hreal Hfull. apply notifiable_spec. split; [done|].
      rewrite Hk. intros [= Heq]. rewrite <- Heq in Hreal.
      unfold real_statuses, Store.placeholder in Hreal. set_solver.
Qed.

Lemma legacy_keys_get_distinct_placeholder_witness :
  let c := Parse.post_process Scenario.slot_available in
  let m := Store._load_notified (ReadOk (JArr [legacy_item (_slot_key c)])) in
  m !! Diff.key_str c = Some (JStr Store.placeholder)
  ∧ (status c = Some "available" → Diff.notifiable m c = true)
  ∧ ((Diff.current_status c ∈ real_statuses) →
     (Diff.current_status c ≠ "full") → Diff.notifiable m c = true).
Proof.
  intros c m.
  pose proof (legacy_keys_get_distinct_placeholder
                [legacy_item (_slot_key c)]) as (_ & _ & _ & _ & H).
  apply H. left.
Defined.

(** The parsed slot of that world is ["available"], and notifiable on the
    first poll after the migration. *)
Example migrated_available_slot_is_notified :
  let c := Parse.post_process Scenario.slot_available in
  let m := Store._load_notified (ReadOk (JArr [legacy_item (_slot_key c)])) in
  status c = Some "available" ∧ Diff.notifiable m c = true.
Proof. split; vm_compute; reflexivity. Qed.

(** ** Observation normalizer *)

Section Order.

(** Strings under [<] form a strict total order. *)
Lemma ltb_slt a b : String.ltb a b = true ↔ slt a b.
Proof. unfold String.ltb, slt. destruct (String.compare a b); naive_solver. Qed.

Lemma slt_trans a b c : slt a b → slt b c → slt a c.
Proof.
  unfold slt. intros H1 H2.
  apply OrderedTypeEx.String_as_OT.cmp_lt.
  eapply OrderedTypeEx.String_as_OT.lt_trans;
    apply OrderedTypeEx.String_as_OT.cmp_lt; eassumption.
Qed.

Lemma slt_irrefl a : ¬ slt a a.
Proof.
  unfold slt. intros H.
  assert (String.compare a a = Eq) as He
    by by apply OrderedTypeEx.String_as_OT.cmp_eq.
  congruence.
Qed.

Lemma slt_trichotomy a b : slt a b ∨ a = b ∨ slt b a.
Proof.
  unfold slt. destruct (String.compare a b) eqn:Hc.
  - right. left. by apply OrderedTypeEx.String_as_OT.cmp_eq.
  - by left.
  - right. right. rewrite String.compare_antisym, Hc. done.
Qed.

Lemma pair_ltb_plt a b : Py.pair_ltb a b = true ↔ plt a b.
Proof.
  unfold Py.pair_ltb, plt.
  rewrite orb_true_iff, andb_true_iff, !ltb_slt, String.eqb_eq. done.
Qed.

Lemma plt_irrefl a : ¬ plt a a.
Proof. intros [H|[_ H]]; by apply slt_irrefl in H. Qed.

Lemma plt_trans a b c : plt a b → plt b c → plt a c.
Proof.
  intros [H1|[E1 H1]] [H2|[E2 H2]].
  - left. by eapply slt_trans.
  - left. by rewrite <- E2.
  - left. by rewrite E1.
  - right. split; [congruence|]. by eapply slt_trans.
Qed.

Lemma plt_asym a b : plt a b → ¬ plt b a.
Proof. intros H1 H2. eapply plt_irrefl, plt_trans; eassumption. Qed.

(** [a < c] puts every [b] above [a] or below [c]. *)
Lemma plt_cotrans a b c : plt a c → plt a b ∨ plt b c.
Proof.
  intros Hac.
  destruct (slt_trichotomy a.1 b.1) as [H|[E|H]].
  - left. by left.
  - destruct (slt_trichotomy a.2 b.2) as [H2|[E2|H2]].
    + left. by right.
    + right. destruct Hac as [H|[E' H]].
      * left. by rewrite <- E.
      * right. split; [congruence|]. by rewrite <- E2.
    + right. destruct Hac as [H|[E' H]].
      * left. by rewrite <- E.
      * right. split; [congruence|]. by eapply slt_trans.
  - right. destruct Hac as [H'|[E' H']].
    + left. by eapply slt_trans.
    + left. by rewrite <- E'.
Qed.

Lemma pair_ltb_false a b : Py.pair_ltb a b = false ↔ ¬ plt a b.
Proof.
  rewrite <- pair_ltb_plt. destruct (Py.pair_ltb a b); naive_solver.
Qed.

End Order.

Section SortFacts.

Context {A : Type} (key : A → string * string).

Local Abbreviation le x y := (Py.pair_ltb (key y) (key x) = false).

Lemma insert_sorted_perm x l : Py.insert_sorted key x l ≡ₚ x :: l.
Proof.
  induction l as [|y l IH]; simpl; [done|].
  destruct (Py.pair_ltb (key y) (key x)); [|done].
  rewrite IH. apply Permutation_swap.
Qed.

Lemma sort_perm l : Py.sort key l ≡ₚ l.
Proof.
  induction l as [|x l IH]; simpl; [done|].
  unfold Py.sort in *. simpl. by rewrite insert_sorted_perm, IH.
Qed.

Lemma le_trans x y z : le x y → le y z → le x z.
Proof.
  rewrite !pair_ltb_false. intros Hxy Hyz Hzx.
  destruct (plt_cotrans _ (key y) _ Hzx); done.
Qed.

Lemma insert_sorted_sorted x l :
  StronglySorted (λ a b, le a b) l →
  StronglySorted (λ a b, le a b) (Py.insert_sorted key x l).
Proof.
  induction 1 as [|y l Hl IH Hy]; simpl.
  - repeat constructor.
  - destruct (Py.pair_ltb (key y) (key x)) eqn:Hlt.
    + constructor; [done|].
      rewrite insert_sorted_perm. constructor; [|done].
      apply pair_ltb_false, plt_asym. by apply pair_ltb_plt.
    + constructor; [by constructor|].
      constructor; [done|].
      eapply Forall_impl; [exact Hy|]. intros z Hz. simpl in Hz.
      by eapply le_trans.
Qed.

Lemma sort_sorted l : StronglySorted (λ a b, le a b) (Py.sort key l).
Proof.
  induction l as [|x l IH]; [constructor|].
  by apply insert_sorted_sorted.
Qed.

End SortFacts.

Section DedupeFacts.

Implicit Types (l pre rest acc : list SlotRecord) (seen : gset SlotKey).

Lemma dedupe_loop_spec pre rest seen acc :
  (∀ k, k ∈ seen ↔ k ∈ map _slot_key pre) →
  Normalizer.dedupe_loop seen acc rest
  = acc ++ concat (imap (λ i r,
                     if decide (_slot_key r ∈ map _slot_key (pre ++ take i rest))
                     then [] else [r]) rest).
Proof.
  revert pre seen acc.
  induction rest as [|r rest IH]; intros pre seen acc Hseen.
  - simpl. by rewrite app_nil_r.
  - cbn [Normalizer.dedupe_loop]. rewrite imap_cons. cbn [concat take].
    rewrite app_nil_r.
    assert (∀ pre' : list SlotRecord,
      imap ((λ i r0, if decide (_slot_key r0
                                  ∈ map _slot_key (pre ++ take i (r :: rest)))
                     then [] else [r0]) ∘ S) rest
      = imap (λ i r0, if decide (_slot_key r0
                                   ∈ map _slot_key ((pre ++ [r]) ++ take i rest))
                      then [] else [r0]) rest) as Himap.
    { intros _. apply imap_ext. intros i x _. simpl.
      by rewrite <- app_assoc. }
    rewrite (Himap []).
    destruct (decide (_slot_key r ∈ seen)) as [Hin|Hout].
    + rewrite decide_True by by apply Hseen.
      rewrite (IH (pre ++ [r])); [done|].
      intros k. rewrite map_app, elem_of_app, <- Hseen. simpl.
      rewrite list_elem_of_singleton. split; [by left|].
      intros [?| ->]; done.
    + rewrite decide_False by by rewrite <- Hseen.
      rewrite (IH (pre ++ [r])); [by rewrite <- app_assoc|].
      intros k. rewrite map_app, elem_of_app, <- Hseen. simpl.
      rewrite list_elem_of_singleton. set_solver.
Qed.

(** The loop keeps exactly the first record of every key. *)
Lemma dedupe_keep_first l : Normalizer.dedupe l = keep_first l.
Proof.
  unfold Normalizer.dedupe, keep_first.
  rewrite (dedupe_loop_spec [] l ∅ []); [done|].
  intros k. simpl. set_solver.
Qed.

Lemma dedupe_loop_nodup rest seen acc :
  NoDup (map _slot_key acc) →
  (∀ k, k ∈ map _slot_key acc → k ∈ seen) →
  NoDup (map _slot_key (Normalizer.dedupe_loop seen acc rest)).
Proof.
  revert seen acc. induction rest as [|r rest IH]; intros seen acc Hnd Hsub.
  - done.
  - cbn [Normalizer.dedupe_loop].
    destruct (decide (_slot_key r ∈ seen)) as [Hin|Hout].
    + by apply IH.
    + apply IH.
      * rewrite map_app. apply NoDup_app. split; [done|]. split.
        -- intros k Hk. simpl. rewrite list_elem_of_singleton.
           intros ->. by apply Hout, Hsub.
        -- simpl. apply NoDup_singleton.
      * intros k. rewrite map_app, elem_of_app. simpl.
        rewrite list_elem_of_singleton. intros [Hk| ->]; [|set_solver].
        apply elem_of_union_r. by apply Hsub.
Qed.

Lemma dedupe_nodup l : NoDup (map _slot_key (Normalizer.dedupe l)).
Proof.
  apply dedupe_loop_nodup; [constructor|].
  intros k Hk. by apply elem_of_nil in Hk.
Qed.

Lemma dedupe_loop_subset rest seen acc x :
  x ∈ Normalizer.dedupe_loop seen acc rest → x ∈ acc ∨ x ∈ rest.
Proof.
  revert seen acc. induction rest as [|r rest IH]; intros seen acc Hx.
  - by left.
  - cbn [Normalizer.dedupe_loop] in Hx.
    destruct (decide (_slot_key r ∈ seen)).
    + destruct (IH _ _ Hx); [by left|right; by right].
    + destruct (IH _ _ Hx) as [Ha|Hr]; [|right; by right].
      apply elem_of_app in Ha as [?| ->%list_elem_of_singleton];
        [by left|right; left].
Qed.

End DedupeFacts.

(** ** Real dates and times sort below the sentinel *)

Lemma char_step a b (n : nat) s t :
  nat_of_ascii b = n →
  (nat_of_ascii a ≤ n)%nat →
  (nat_of_ascii a = n → slt s t ∨ s = t) →
  slt (String a s) (String b t) ∨ String a s = String b t.
Proof.
  intros Hb Hle Htail.
  destruct (decide (nat_of_ascii a = n)) as [Heq|Hne].
  - assert (a = b) as ->.
    { apply OrderedTypeEx.String_as_OT.nat_of_ascii_inverse. congruence. }
    destruct (Htail Heq) as [Hlt| ->]; [left|by right].
    apply OrderedTypeEx.String_as_OT.cmp_lt.
    apply OrderedTypeEx.String_as_OT.lts_tail.
    by apply OrderedTypeEx.String_as_OT.cmp_lt.
  - left. apply OrderedTypeEx.String_as_OT.cmp_lt.
    apply OrderedTypeEx.String_as_OT.lts_head. lia.
Qed.

Lemma is_digit_bounds c :
  ascii_digit c = true → (48 ≤ nat_of_ascii c ∧ nat_of_ascii c ≤ 57)%nat.
Proof. unfold ascii_digit. by rewrite bool_decide_eq_true. Qed.

Lemma is_char_eq x c : Parse.is_char x c = true → c = x.
Proof. unfold Parse.is_char. by rewrite bool_decide_eq_true. Qed.

Lemma calendar_date_below_sentinel d :
  is_calendar_date d = true → slt d "9999-12-31" ∨ d = "9999-12-31".
Proof.
  unfold is_calendar_date.
  destruct d as [|y1 [|y2 [|y3 [|y4 [|s1 [|m1 [|m2 [|s2 [|d1 [|d2 [|]]]]]]]]]]];
    try done.
  rewrite !andb_true_iff, !bool_decide_eq_true. unfold two_digits.
  intros (((((((((((Hy1 & Hy2) & Hy3) & Hy4) & Hs1) & Hm1) & Hm2) & Hs2)
              & Hd1) & Hd2) & Hm) & Hd).
  apply is_digit_bounds in Hy1, Hy2, Hy3, Hy4, Hm1, Hm2, Hd1, Hd2.
  apply is_char_eq in Hs1, Hs2. subst s1 s2.
  apply (char_step _ _ 57); [reflexivity|lia|intros E1].
  apply (char_step _ _ 57); [reflexivity|lia|intros E2].
  apply (char_step _ _ 57); [reflexivity|lia|intros E3].
  apply (char_step _ _ 57); [reflexivity|lia|intros E4].
  apply (char_step _ _ 45); [reflexivity|done|intros _].
  apply (char_step _ _ 49); [reflexivity|lia|intros E5].
  apply (char_step _ _ 50); [reflexivity|lia|intros E6].
  apply (char_step _ _ 45); [reflexivity|done|intros _].
  apply (char_step _ _ 51); [reflexivity|lia|intros E7].
  apply (char_step _ _ 49); [reflexivity|lia|intros E8].
  by right.
Qed.

Lemma clock_time_below_sentinel t :
  is_clock_time t = true → slt t "99:99".
Proof.
  unfold is_clock_time.
  destruct t as [|h1 [|h2 [|c [|n1 [|n2 [|]]]]]]; try done.
  rewrite !andb_true_iff, !bool_decide_eq_true. unfold two_digits.
  intros ((((((Hh1 & Hh2) & Hc) & Hn1) & Hn2) & Hh) & Hn).
  apply is_digit_bounds in Hh1, Hh2.
  apply OrderedTypeEx.String_as_OT.cmp_lt.
  apply OrderedTypeEx.String_as_OT.lts_head.
  change (nat_of_ascii "9") with 57. lia.
Qed.

Lemma calendar_key_below_sentinel d t :
  is_calendar_date d = true → is_clock_time t = true → plt (d, t) sentinel.
Proof.
  intros Hd Ht. unfold plt, sentinel. simpl.
  destruct (calendar_date_below_sentinel d Hd) as [Hlt| ->]; [by left|].
  right. split; [done|]. by apply clock_time_below_sentinel.
Qed.

Lemma sort_key_dated r d t :
  date r = Some d → time r = Some t →
  is_calendar_date d = true → is_clock_time t = true →
  Normalizer.sort_key r = (d, t).
Proof.
  intros Hd Ht Hcd Hct. unfold Normalizer.sort_key, Py.or_else.
  rewrite Hd, Ht.
  rewrite !decide_False; [done|by intros ->|by intros ->].
Qed.

(** C8 (amended): the normalizer keeps the first record of every slot key
    and sorts the kept records, stably, in ascending order of
    [(date or "9999-12-31", time or "99:99")]; no two records of the output
    share a slot key; a record with neither date nor time is sorted under
    the key [("9999-12-31", "99:99")], so nothing with a smaller key comes
    after it, in particular no record whose date is a calendar date and
    whose time is a clock time. *)
Theorem normalize_dedupes_then_sorts results :
  let out := Normalizer.normalize results in
  out = Py.sort Normalizer.sort_key (keep_first results)
  ∧ out ≡ₚ keep_first results
  ∧ StronglySorted key_le out
  ∧ NoDup (map _slot_key out)
  ∧ (∀ l1 r1 l2,
       out = l1 ++ r1 :: l2 → date r1 = None → time r1 = None →
       Normalizer.sort_key r1 = sentinel
       ∧ (∀ r2, r2 ∈ l2 → ¬ plt (Normalizer.sort_key r2) sentinel)
       ∧ (∀ r2 d t, r2 ∈ l2 → date r2 = Some d → time r2 = Some t →
            ¬ (is_calendar_date d = true ∧ is_clock_time t = true))).
Proof.
  intros out. subst out. unfold Normalizer.normalize.
  rewrite dedupe_keep_first.
  pose proof (sort_perm Normalizer.sort_key (keep_first results)) as Hperm.
  pose proof (sort_sorted Normalizer.sort_key (keep_first results)) as Hsorted.
  split; [done|]. split; [done|]. split; [done|]. split.
  - apply (NoDup_Permutation_proper _ _ (Permutation_map _slot_key Hperm)).
    rewrite <- dedupe_keep_first. apply dedupe_nodup.
  - intros l1 r1 l2 Heq Hd Ht.
    assert (Normalizer.sort_key r1 = sentinel) as Hkey.
    { unfold Normalizer.sort_key. by rewrite Hd, Ht. }
    assert (∀ r2, r2 ∈ l2 → ¬ plt (Normalizer.sort_key r2) sentinel) as Hafter.
    { intros r2 Hr2. rewrite Heq in Hsorted.
      apply StronglySorted_app_1_r in Hsorted.
      apply StronglySorted_inv in Hsorted as [_ Hall].
      rewrite List.Forall_forall in Hall.
      specialize (Hall r2 (proj1 (list_elem_of_In _ _) Hr2)).
      simpl in Hall. rewrite Hkey in Hall. by apply pair_ltb_false. }
    split; [done|]. split; [done|].
    intros r2 d t Hr2 Hd2 Ht2 [Hcd Hct].
    apply (Hafter r2 Hr2).
    rewrite (sort_key_dated r2 d t) by done.
    by apply calendar_key_below_sentinel.
Qed.

(** C8, as stated, fails: the start marker [9999-12-32 00:00] matches the
    date pattern, and the record without date and time is sorted in front of
    it. *)
Lemma undated_record_precedes_late_date :
  let out := parse_page [Scenario.late_dated; Scenario.undated] in
  map date out = [None; Some "9999-12-32"]
  ∧ map time out = [None; Some "00:00"].
Proof. split; vm_compute; reflexivity. Qed.

Lemma normalize_dedupes_then_sorts_witness :
  let dated := Parse.post_process Scenario.slot_available in
  let r1 := Parse.post_process Scenario.undated in
  Normalizer.normalize [r1; dated; r1] = [dated; r1]
  ∧ Normalizer.sort_key r1 = sentinel
  ∧ (∀ r2, r2 ∈ [] → ¬ plt (Normalizer.sort_key r2) sentinel)
  ∧ (∀ r2 d t, r2 ∈ [] → date r2 = Some d → time r2 = Some t →
       ¬ (is_calendar_date d = true ∧ is_clock_time t = true)).
Proof.
  intros dated r1.
  assert (Normalizer.normalize [r1; dated; r1] = [dated] ++ r1 :: []) as Hout
    by (vm_compute; reflexivity).
  split; [exact Hout|].
  pose proof (normalize_dedupes_then_sorts [r1; dated; r1])
    as (_ & _ & _ & _ & H).
  apply (H [dated] r1 [] Hout); vm_compute; reflexivity.
Defined.

(** Duplicates collapse to the first observation, and the dated record
    comes first. *)
Example dedupe_and_sort_sample :
  let out := parse_page [Scenario.undated; Scenario.slot_unmarked;
                         Scenario.slot_available] in
  map status out = [Some "other"; Some "available"]
  ∧ map date out = [Some "2025-11-09"; None].
Proof. split; vm_compute; reflexivity. Qed.

(** * Further properties of the code *)

(** ** The diff loop keeps what it does not observe *)

(** X1: the new state starts as a copy of the loaded one
    ([new_notified = dict(prev)]): a key that no record of the cycle has
    keeps its stored value, no key is ever dropped, the keys of the new state
    are the old keys and the observed ones, and no more records are produced
    than were observed. *)
Theorem unobserved_keys_are_kept (prev : gmap string value)
    (fetched : list (option (list SlotRecord))) :
  let new := (Diff.run prev fetched).1 in
  let seen := Diff.observed fetched in
  (∀ k, k ∉ map Diff.key_str seen → new !! k = prev !! k)
  ∧ (∀ k, is_Some (prev !! k) → is_Some (new !! k))
  ∧ (∀ k, is_Some (new !! k)
          ↔ is_Some (prev !! k) ∨ k ∈ map Diff.key_str seen)
  ∧ (length (Diff.run prev fetched).2 ≤ length seen)%nat.
Proof.
  intros new seen. subst new seen. rewrite run_unfold. cbn [fst snd].
  set (seen := Diff.observed fetched).
  assert (∀ k, k ∉ map Diff.key_str seen →
               record_all prev seen !! k = prev !! k) as Hkeep.
  { intros k Hk. apply record_all_unseen. intros c Hc Heq. apply Hk.
    apply list_elem_of_In, in_map_iff. exists c.
    split; [done|]. by apply list_elem_of_In. }
  assert (∀ k, k ∈ map Diff.key_str seen →
               is_Some (record_all prev seen !! k)) as Hseen.
  { intros k Hk. destruct (record_all_seen_key prev seen k Hk)
      as (c & _ & _ & ->). eauto. }
  split; [done|]. split; [|split].
  - intros k Hk.
    destruct (decide (k ∈ map Diff.key_str seen)) as [Hin|Hout].
    + by apply Hseen.
    + by rewrite Hkeep.
  - intros k. split.
    + intros Hk.
      destruct (decide (k ∈ map Diff.key_str seen)) as [Hin|Hout].
      * by right.
      * left. by rewrite <- Hkeep.
    + intros [Hk|Hk]; [|by apply Hseen].
      destruct (decide (k ∈ map Diff.key_str seen)) as [Hin|Hout].
      * by apply Hseen.
      * by rewrite Hkeep.
  - apply List.filter_length_le.
Qed.

Lemma unobserved_keys_are_kept_witness :
  let prev : gmap string value := {[ "gone" := JStr "available" ]} in
  let fetched := [Some (parse_page [Scenario.slot_full]); None] in
  (Diff.run prev fetched).1 !! "gone" = prev !! "gone".
Proof.
  intros prev fetched.
  pose proof (unobserved_keys_are_kept prev fetched) as (H & _).
  apply H. vm_compute.
  intros Hin. apply list_elem_of_singleton in Hin. discriminate.
Defined.


(** ** The files only grow *)

Lemma extends_refl w : extends w w.
Proof. by repeat split. Qed.

Lemma extends_log l w w1 : extends w w1 → extends w (log_line l w1).
Proof.
  intros (? & ? & ? & ? & ? & ?). repeat split; try done.
  by apply prefix_app_r.
Qed.

Lemma extends_history e w w1 : extends w w1 → extends w (put_history e w1).
Proof.
  intros (? & ? & ? & ? & ? & ?). repeat split; try done.
  by apply prefix_app_r.
Qed.

Lemma extends_wire c w w1 : extends w w1 → extends w (put_wire c w1).
Proof.
  intros (? & ? & ? & ? & ? & ?). repeat split; try done.
  by apply prefix_app_r.
Qed.

Lemma extends_notified f w w1 : extends w w1 → extends w (put_notified f w1).
Proof. by intros (? & ? & ? & ? & ? & ?). Qed.

Lemma extends_trans w1 w2 w3 : extends w1 w2 → extends w2 w3 → extends w1 w3.
Proof.
  intros (? & ? & ? & ? & ? & ?) (? & ? & ? & ? & ? & ?).
  repeat split; try congruence; by etrans.
Qed.

Ltac grow :=
  repeat first
    [ apply extends_refl
    | apply extends_log
    | apply extends_history
    | apply extends_wire ].

Section GrowFacts.

Context (http_post : nat → Request → Reply).
Context (smtp_deliver : nat → SmtpJob → option string).
Context (utcnow : nat → string).
Context (httpx_import : option string).
Context (observe : string → option (list RawItem)).
Context (py_int : string → option Z).
Context (email_message : string → string → string → string → option string).

Lemma http_provider_grows label method req subject to w :
  let r := http_provider http_post utcnow httpx_import label method req
             subject to w in
  extends w r.2 ∧ notified_json r.2 = notified_json w.
Proof.
  cbv zeta. unfold http_provider, post, audit_email.
  repeat case_match; simplify_eq/=; split; try done; grow.
Qed.

Lemma send_email_grows subject body to w :
  let out := send_email http_post smtp_deliver utcnow httpx_import
               py_int email_message subject body to w in
  extends w out.2 ∧ notified_json out.2 = notified_json w.
Proof.
  cbv zeta. unfold send_email.
  assert (∀ w0, let r := sendgrid http_post utcnow httpx_import subject body
                           to w0 in
                extends w0 r.2 ∧ notified_json r.2 = notified_json w0) as Hsg.
  { intros w0. cbv zeta. unfold sendgrid.
    repeat case_match; try (split; [apply extends_refl|done]).
    apply http_provider_grows. }
  assert (∀ w0, let r := mailgun http_post utcnow httpx_import subject body
                           to w0 in
                extends w0 r.2 ∧ notified_json r.2 = notified_json w0) as Hmg.
  { intros w0. cbv zeta. unfold mailgun.
    repeat case_match; try (split; [apply extends_refl|done]).
    apply http_provider_grows. }
  assert (∀ w0, let r := smtp_or_dry_run smtp_deliver utcnow py_int
                           email_message subject body to w0 in
                extends w0 r.2 ∧ notified_json r.2 = notified_json w0) as Hsm.
  { intros w0. cbv zeta. unfold smtp_or_dry_run, smtp_block, audit_email.
    repeat case_match; simplify_eq/=; split; try done; grow. }
  specialize (Hsg w).
  destruct (sendgrid _ _ _ _ _ _ w) as [[b|] w1]; cbn [fst snd] in *; [done|].
  specialize (Hmg w1).
  destruct (mailgun _ _ _ _ _ _ w1) as [[b|] w2]; cbn [fst snd] in *.
  { destruct Hsg, Hmg. split; [by eapply extends_trans|congruence]. }
  specialize (Hsm w2).
  destruct (smtp_or_dry_run _ _ _ _ _ _ _ w2) as [o w3]; cbn [fst snd] in *.
  destruct Hsg, Hmg, Hsm.
  split; [eapply extends_trans; [|eassumption]; by eapply extends_trans
         |congruence].
Qed.

Lemma line_loop_grows message tokens b w :
  let out := foldl (line_step http_post utcnow message) (b, w) tokens in
  extends w out.2 ∧ notified_json out.2 = notified_json w.
Proof.
  revert b w. induction tokens as [|t tokens IH]; intros b w; cbv zeta in *;
    cbn [foldl].
  - split; [apply extends_refl|done].
  - assert (extends w (line_step http_post utcnow message (b, w) t).2
            ∧ notified_json (line_step http_post utcnow message (b, w) t).2
              = notified_json w) as [Hs Hn].
    { unfold line_step, post, audit_line.
      repeat case_match; simplify_eq/=; split; try done; grow. }
    destruct (line_step http_post utcnow message (b, w) t) as [b1 w1].
    destruct (IH b1 w1) as [Hs' Hn']. cbn [snd] in *.
    split; [by eapply extends_trans|congruence].
Qed.

(** X3: the text log, the audit log and the wire only ever grow, and the
    environment, the recipient file and the token file are never written:
    this holds across [send_email], across [send_line], and across a whole
    cycle of [notify_once_for_starts]; the two senders leave the state file
    alone as well. *)
Theorem files_only_grow subject body to message tokens starts w :
  let mail := send_email http_post smtp_deliver utcnow httpx_import
                py_int email_message subject body to w in
  let line := send_line http_post utcnow httpx_import message tokens w in
  let cycle := notify_once_for_starts http_post smtp_deliver utcnow
                 httpx_import observe py_int email_message starts w in
  (extends w mail.2 ∧ notified_json mail.2 = notified_json w)
  ∧ (extends w line.2 ∧ notified_json line.2 = notified_json w)
  ∧ extends w cycle.2.
Proof.
  cbv zeta. split; [apply send_email_grows|]. split.
  - unfold send_line. destruct tokens as [|t tokens].
    { split; [grow|done]. }
    destruct httpx_import; [split; [grow|done]|].
    apply line_loop_grows.
  - destruct (notify_once_shape http_post smtp_deliver utcnow httpx_import
                observe py_int email_message starts w)
      as [(_ & ->)|(_ & _ & Hout)].
    { apply extends_notified, extends_refl. }
    cbv zeta in Hout.
    match type of Hout with
    | context [send_email _ _ _ _ _ _ ?s ?b ?t w] =>
        pose proof (send_email_grows s b t w) as [Hg _];
        destruct (send_email http_post smtp_deliver utcnow httpx_import
                    py_int email_message s b t w)
          as [[r|e] w1]
    end; cbn [fst snd] in *; rewrite Hout; cbn [snd].
    + by apply extends_notified.
    + done.
Qed.

(** X4: [send_line] called with no token, or where [httpx] cannot be
    imported, returns [False] without contacting anyone: nothing reaches the
    wire, no audit entry is written, and exactly one line goes to the text
    log. *)
Theorem send_line_without_tokens_or_httpx message tokens w :
  tokens = [] ∨ httpx_import ≠ None →
  let out := send_line http_post utcnow httpx_import message tokens w in
  out.1 = false
  ∧ wire out.2 = wire w
  ∧ notifications_jsonl out.2 = notifications_jsonl w
  ∧ ∃ l, notification_log out.2 = notification_log w ++ [l].
Proof.
  intros H. cbv zeta. unfold send_line.
  destruct tokens as [|t tokens]; [repeat split; eauto|].
  destruct H as [?|H]; [done|].
  destruct httpx_import; [repeat split; eauto|done].
Qed.

End GrowFacts.

Lemma send_line_without_tokens_or_httpx_witness :
  let out := send_line Scenario.all_accepted Scenario.clock None
               "message" [] Scenario.blank in
  out.1 = false
  ∧ wire out.2 = wire Scenario.blank
  ∧ notifications_jsonl out.2 = notifications_jsonl Scenario.blank
  ∧ ∃ l, notification_log out.2 = notification_log Scenario.blank ++ [l].
Proof.
  apply (send_line_without_tokens_or_httpx Scenario.all_accepted
           Scenario.clock None "message" [] Scenario.blank).
  by left.
Defined.

(** ** More on the normalizer and the parser *)

Lemma dedupe_loop_fresh rest seen acc :
  NoDup (map _slot_key rest) →
  (∀ r, r ∈ rest → _slot_key r ∉ seen) →
  Normalizer.dedupe_loop seen acc rest = acc ++ rest.
Proof.
  revert seen acc. induction rest as [|r rest IH]; intros seen acc Hnd Hfresh.
  - simpl. by rewrite app_nil_r.
  - cbn [Normalizer.dedupe_loop]. cbn [map] in Hnd.
    apply NoDup_cons in Hnd as [Hr Hnd].
    rewrite decide_False by (apply Hfresh; left).
    rewrite IH; [by rewrite <- app_assoc|done|].
    intros r' Hr' Hin. apply elem_of_union in Hin as [Hin|Hin].
    + apply elem_of_singleton in Hin. apply Hr. rewrite <- Hin.
      apply list_elem_of_In, in_map, list_elem_of_In, Hr'.
    + eapply Hfresh; [right; exact Hr'|done].
Qed.

Lemma sort_of_sorted {A} (key : A → string * string) (l : list A) :
  StronglySorted (λ a b, Py.pair_ltb (key b) (key a) = false) l →
  Py.sort key l = l.
Proof.
  induction 1 as [|x l Hl IH Hx]; [done|].
  unfold Py.sort in *. cbn [foldr]. rewrite IH.
  destruct l as [|y l]; [done|]. cbn [Py.insert_sorted].
  apply Forall_cons in Hx as [Hxy _]. by rewrite Hxy.
Qed.

(** X5: normalizing is idempotent: a list that is already deduplicated and
    sorted comes back unchanged, so normalizing twice is normalizing once. *)
Theorem normalize_idempotent (results : list SlotRecord) :
  Normalizer.normalize (Normalizer.normalize results)
  = Normalizer.normalize results.
Proof.
  set (out := Normalizer.normalize results).
  assert (NoDup (map _slot_key out)) as Hnd.
  { subst out. unfold Normalizer.normalize.
    apply (NoDup_Permutation_proper _ _
             (Permutation_map _slot_key (sort_perm _ _))).
    apply dedupe_nodup. }
  assert (StronglySorted (λ a b, Py.pair_ltb (Normalizer.sort_key b)
                                    (Normalizer.sort_key a) = false) out)
    as Hsorted by apply sort_sorted.
  unfold Normalizer.normalize at 1. unfold Normalizer.dedupe.
  rewrite dedupe_loop_fresh; [|done|set_solver].
  by apply sort_of_sorted.
Qed.

(** X6: the candidates [/api/check] shows are the records of the fetch whose
    status is not ["full"], with the recipients on file; a cycle over the
    same fetch produces exactly the candidates whose stored status differs
    from the current one, hence a sub-list of them, and all of them when the
    state is empty.  When the fetch fails, [/api/check] answers with an
    error and the cycle produces nothing. *)
Theorem check_candidates_cover_notifications
    (observe : string → option (list RawItem)) (start : string) (w : World)
    (prev : gmap string value) :
  let produced := (Diff.run prev [fetch_parsed_impl observe start]).2 in
  match api_check observe (Some start) w with
  | Some (candidates, recipients) =>
      (∃ data, fetch_parsed_impl observe start = Some data
               ∧ candidates
                 = List.filter (λ d, bool_decide (status d ≠ Some "full")) data)
      ∧ Forall (λ c, status c ≠ Some "full") candidates
      ∧ produced
        = List.filter
            (λ c, Json.ne_str (prev !! _key_to_str (_slot_key c))
                              (default EmptyString (status c))) candidates
      ∧ produced `sublist_of` candidates
      ∧ (prev = ∅ → produced = candidates)
      ∧ recipients = _read_recipients w
  | None => fetch_parsed_impl observe start = None ∧ produced = []
  end.
Proof.
  cbv zeta. unfold api_check.
  change (default EmptyString (Some start)) with start.
  rewrite run_unfold. cbn [snd]. unfold Diff.observed. cbn [map concat].
  destruct (fetch_parsed_impl observe start) as [data|]; [|done].
  change (default [] (Some data)) with data.
  rewrite app_nil_r.
  assert (∀ c, Diff.current_status c = default EmptyString (status c))
    as Hcs by status_is_field.
  assert (∀ d, bool_decide (Diff.current_status d ≠ "full")
               = bool_decide (status d ≠ Some "full")) as not_full_status.
  { intros d. rewrite Hcs. apply bool_decide_ext.
    destruct (status d) as [x|]; simpl; [|done].
    split.
    - intros H Heq. apply H. by injection Heq.
    - intros H Heq. apply H. by f_equal. }
  rewrite (filter_ext _ _ not_full_status).
  set (candidates := List.filter (λ d, bool_decide (status d ≠ Some "full"))
                                 data).
  assert (∀ m : gmap string value,
    List.filter (Diff.notifiable m) data
    = List.filter (λ c, Json.ne_str (m !! _key_to_str (_slot_key c))
                                    (default EmptyString (status c)))
        candidates) as Hsplit.
  { intros m. subst candidates. induction data as [|c data IH]; [done|].
    cbn [List.filter]. unfold Diff.notifiable at 1.
    rewrite not_full_status, Hcs.
    destruct (bool_decide (status c ≠ Some "full")); cbn [andb].
    - cbn [List.filter]. unfold Diff.key_str at 1.
      destruct (Json.ne_str _ _); by rewrite IH.
    - done. }
  split; [by exists data|]. split; [|split; [apply Hsplit|split; [|split; [|done]]]].
  - apply Forall_forall. intros c Hc. subst candidates.
    apply list_elem_of_In, filter_In in Hc as [_ Hc].
    by apply bool_decide_eq_true in Hc.
  - rewrite Hsplit. clear.
    induction candidates as [|c l IH]; [done|].
    cbn [List.filter]. destruct (Json.ne_str _ _).
    + by apply sublist_skip.
    + by apply sublist_cons.
  - intros ->. rewrite Hsplit. clear.
    induction candidates as [|c l IH]; [done|].
    cbn [List.filter]. rewrite lookup_empty. cbn [Json.ne_str].
    by rewrite IH.
Qed.

(** One of the two slots of the week is full: it is no candidate, and the
    cycle on an empty state produces the other one. *)
Lemma check_candidates_cover_notifications_witness :
  match api_check Scenario.mixed (Some "2025-11-09") Scenario.watched with
  | Some (candidates, recipients) =>
      map status candidates = [Some "available"]
      ∧ (Diff.run ∅ [fetch_parsed_impl Scenario.mixed "2025-11-09"]).2
        = candidates
      ∧ (length <$> fetch_parsed_impl Scenario.mixed "2025-11-09") = Some 2
  | None => False
  end.
Proof.
  pose proof (check_candidates_cover_notifications Scenario.mixed
                "2025-11-09" Scenario.watched ∅) as H.
  cbv zeta in H.
  destruct (api_check Scenario.mixed (Some "2025-11-09") Scenario.watched)
    as [[candidates recipients]|] eqn:Hc.
  - destruct H as ((data & Hdata & ->) & _ & _ & _ & H & _).
    split; [|split; [by apply H|vm_compute; reflexivity]].
    vm_compute in Hdata. injection Hdata as <-. vm_compute. reflexivity.
  - vm_compute in Hc. discriminate.
Defined.

(** X7: [/api/history] returns the last [limit] audit entries, most recent
    first, for a positive [limit] (never more than [limit] of them); with
    [limit = 0] the slice [lines[-0:]] is the whole file, so every entry is
    returned; a negative [limit] drops that many of the oldest entries. *)
Theorem history_window (limit : Z) (w : World) :
  let all := reverse (notifications_jsonl w) in
  ((0 < limit)%Z →
     api_history limit w = take (Z.to_nat limit) all
     ∧ (Z.of_nat (length (api_history limit w)) ≤ limit)%Z)
  ∧ (limit = 0%Z → api_history limit w = all)
  ∧ ((limit < 0)%Z →
     api_history limit w
     = reverse (drop (Z.to_nat (- limit)) (notifications_jsonl w))).
Proof.
  cbv zeta. unfold api_history, slice_from.
  set (l := notifications_jsonl w). split; [|split].
  - intros Hpos. rewrite decide_True by lia.
    assert (take (Z.to_nat limit) (reverse l)
            = reverse (drop (Z.to_nat (Z.max 0 (Z.of_nat (length l) + - limit)))
                            l)) as ->.
    { rewrite take_reverse. do 2 f_equal. lia. }
    split; [done|].
    rewrite length_reverse, length_drop. lia.
  - intros ->. rewrite decide_False by lia. done.
  - intros Hneg. rewrite decide_False by lia. done.
Qed.

Lemma history_window_witness :
  let w := (send_line Scenario.second_refused Scenario.clock None
              "message" Scenario.three_tokens Scenario.blank).2 in
  map e_status (api_history 2 w) = ["success"; "failed"]
  ∧ map e_status (api_history 0 w) = ["success"; "failed"; "success"].
Proof.
  intros w.
  pose proof (history_window 2 w) as (H2 & _).
  pose proof (history_window 0 w) as (_ & H0 & _).
  destruct H2 as [-> _]; [lia|]. rewrite H0 by done.
  split; vm_compute; reflexivity.
Defined.
(** ** What the date pattern extracts *)

Lemma code_complete ch cp : Utf8.code ch = Some cp → complete ch.
Proof.
  destruct ch as [|a [|b [|c [|d [|e r]]]]]; try done;
    unfold Utf8.code, complete, Utf8.width, nat_of_ascii;
    cbn [String.length]; intros H.
  - destruct (N.ltb_spec (N_of_ascii a) 128); [|done].
    rewrite decide_True by lia. done.
  - destruct (N.leb_spec 192 (N_of_ascii a)); [|done].
    destruct (N.ltb_spec (N_of_ascii a) 224); [|done].
    rewrite decide_False by lia. rewrite decide_True by lia. done.
  - destruct (N.leb_spec 224 (N_of_ascii a)); [|done].
    destruct (N.ltb_spec (N_of_ascii a) 240); [|done].
    rewrite !decide_False by lia. rewrite decide_True by lia. done.
  - destruct (N.leb_spec 240 (N_of_ascii a)); [|done].
    destruct (N.ltb_spec (N_of_ascii a) 248); [|done].
    rewrite !decide_False by lia. done.
Qed.

Lemma digit_complete ch : Parse.digit ch = true → complete ch.
Proof.
  unfold Parse.digit, Unicode.decimal.
  destruct (Utf8.code ch) as [cp|] eqn:Hc; [|done].
  intros _. by eapply code_complete.
Qed.

Lemma one_eq x ch : Parse.one x ch = true → ch = String x EmptyString.
Proof. unfold Parse.one. by rewrite bool_decide_eq_true. Qed.

Lemma clock_at_shape l t : Parse.clock_at l = Some t → is_time_shape t = true.
Proof.
  unfold Parse.clock_at.
  destruct l as [|h1 [|h2 [|c [|n1 [|n2 l]]]]]; try done.
  destruct (_ && _) eqn:Hc; [|done]. intros [= <-].
  apply andb_true_iff in Hc as [Hc Hn2].
  apply andb_true_iff in Hc as [Hc Hn1].
  apply andb_true_iff in Hc as [Hc Hcol].
  apply andb_true_iff in Hc as [Hh1 Hh2].
  apply one_eq in Hcol. subst c.
  unfold is_time_shape.
  replace (h1 +:+ h2 +:+ ":" +:+ n1 +:+ n2)
    with (Utf8.join [h1; h2; ":"; n1; n2])
    by (cbn [Utf8.join]; by rewrite append_nil_r).
  rewrite chars_join_complete.
  - by rewrite Hh1, Hh2, Hn1, Hn2.
  - repeat constructor; try by apply digit_complete.
Qed.

Lemma datetime_at_shape sep opt l d t :
  Parse.datetime_at sep opt l = Some (d, t) →
  is_date_shape d = true ∧ is_time_shape t = true.
Proof.
  unfold Parse.datetime_at.
  destruct l as [|y1 [|y2 [|y3 [|y4 [|s1 [|m1 [|m2 [|s2 [|d1 [|d2 rest]]]]]]]]]];
    try done.
  destruct (_ && _) eqn:Hc; [|done].
  match goal with
  | |- match ?x with _ => _ end = _ → _ => destruct x as [hm|] eqn:Hclock
  end; [|done].
  intros [= <- <-]. split.
  - repeat (apply andb_true_iff in Hc as [Hc ?]).
    unfold is_date_shape.
    replace (y1 +:+ y2 +:+ y3 +:+ y4 +:+ "-" +:+ m1 +:+ m2 +:+ "-"
               +:+ d1 +:+ d2)
      with (Utf8.join [y1; y2; y3; y4; "-"; m1; m2; "-"; d1; d2])
      by (cbn [Utf8.join]; by rewrite append_nil_r).
    rewrite chars_join_complete.
    + repeat match goal with
             | H : Parse.digit _ = true |- _ => rewrite H; clear H
             end.
      done.
    + repeat constructor; try by apply digit_complete.
  - destruct rest as [|c r]; [by eapply clock_at_shape|].
    destruct (opt c); [|by eapply clock_at_shape].
    destruct (Parse.clock_at r) eqn:Hr.
    + injection Hclock as <-. by eapply clock_at_shape.
    + by eapply clock_at_shape.
Qed.

Lemma search_shape sep opt l d t :
  Parse.search sep opt l = Some (d, t) →
  is_date_shape d = true ∧ is_time_shape t = true.
Proof.
  induction l as [|c l IH]; cbn [Parse.search].
  - destruct (Parse.datetime_at sep opt []) as [[d' t']|] eqn:H; [|done].
    intros [= <- <-]. by eapply datetime_at_shape.
  - destruct (Parse.datetime_at sep opt (c :: l)) as [[d' t']|] eqn:H;
      [|done].
    intros [= <- <-]. by eapply datetime_at_shape.
Qed.

(** Where the ISO pattern matches, the first pattern matches too. *)
Lemma iso_at_is_slashed_at l r :
  Parse.datetime_at (Parse.one "-") (Parse.one "T") l = Some r →
  ∃ r', Parse.datetime_at
          (λ ch, Parse.one "/" ch || Parse.one "-" ch)
          (λ ch, Parse.one "T" ch || Unicode.space ch) l = Some r'.
Proof.
  unfold Parse.datetime_at.
  destruct l as [|y1 [|y2 [|y3 [|y4 [|s1 [|m1 [|m2 [|s2 [|d1 [|d2 rest]]]]]]]]]];
    try done.
  destruct (_ && _) eqn:Hc; [|done].
  repeat (apply andb_true_iff in Hc as [Hc ?]).
  rewrite Hc. repeat match goal with H : _ = true |- _ => rewrite H end.
  rewrite !orb_true_r. cbn [andb].
  destruct rest as [|c rest]; [by eauto|].
  destruct (Parse.one "T" c) eqn:HT; cbn [orb]; [by eauto|].
  destruct (Parse.clock_at (c :: rest)) as [hm|] eqn:Hclock; [|done].
  intros _. destruct (Unicode.space c); [|by eauto].
  destruct (Parse.clock_at rest); by eauto.
Qed.

Lemma iso_search_is_covered s r :
  Parse.re_iso s = Some r → ∃ r', Parse.re_slashed s = Some r'.
Proof.
  unfold Parse.re_iso, Parse.re_slashed.
  induction (Utf8.chars s) as [|c l IH]; cbn [Parse.search].
  - destruct (Parse.datetime_at (Parse.one "-") _ []) eqn:H; [|done].
    apply iso_at_is_slashed_at in H as [r' ->]. eauto.
  - destruct (Parse.datetime_at (Parse.one "-") _ (c :: l)) eqn:H.
    + apply iso_at_is_slashed_at in H as [r' ->]. eauto.
    + intros Hs. clear H.
      destruct (Parse.datetime_at _ _ (c :: l)); [eauto|].
      by apply IH.
Qed.

(** X8: the parser sets date and time together or not at all; when set,
    the date is made of four, two and two characters that [\d] matches,
    joined by [-], and the time of two and two, joined by [:]; and the
    second pattern of the source never contributes, because every string it
    matches is matched by the first. *)
Theorem date_and_time_come_together (item : RawItem) :
  let r := Parse.post_process item in
  (date r = None ↔ time r = None)
  ∧ (∀ d, date r = Some d → is_date_shape d = true)
  ∧ (∀ t, time r = Some t → is_time_shape t = true)
  ∧ (∀ start_raw, Parse.date_time start_raw = Parse.re_slashed start_raw).
Proof.
  cbv zeta. cbn [Parse.post_process date time].
  assert (∀ s, Parse.date_time s = Parse.re_slashed s) as Hcover.
  { intros s. unfold Parse.date_time.
    destruct (Parse.re_slashed s) eqn:Hs; [done|].
    destruct (Parse.re_iso s) eqn:Hi; [|done].
    apply iso_search_is_covered in Hi as [r' Hr']. congruence. }
  destruct (Parse.date_time (Py.strip (raw_start item))) as [[d t]|] eqn:Hdt;
    cbn [fmap option_fmap option_map fst snd].
  - assert (is_date_shape d = true ∧ is_time_shape t = true) as [Hd Ht].
    { rewrite Hcover in Hdt. unfold Parse.re_slashed in Hdt.
      eapply search_shape. exact Hdt. }
    split; [done|]. split; [by intros ? [= <-]|]. split; [by intros ? [= <-]|].
    exact Hcover.
  - split; [done|]. split; [done|]. split; [done|]. exact Hcover.
Qed.

(** A start marker in full-width digits is a date for the parser. *)
Lemma date_and_time_come_together_witness :
  let r := Parse.post_process
             (mkRaw "２０２５-１１-０９ 13:00" EmptyString "svc-1" "k1"
                    EmptyString EmptyString EmptyString "〇") in
  date r = Some "２０２５-１１-０９"
  ∧ is_date_shape "２０２５-１１-０９" = true
  ∧ is_time_shape "13:00" = true.
Proof.
  intros r.
  pose proof (date_and_time_come_together
                (mkRaw "２０２５-１１-０９ 13:00" EmptyString "svc-1" "k1"
                       EmptyString EmptyString EmptyString "〇"))
    as (_ & Hd & Ht & _).
  fold r in Hd, Ht.
  split; [vm_compute; reflexivity|].
  split; [apply Hd|apply Ht]; vm_compute; reflexivity.
Defined.

(** ** Slot keys and the state file *)

(** X9: [_key_to_str] is injective: two slot keys are written as the same
    string only if they are the same key, so two records share an entry of
    the state file exactly when they share date, time, service code and raw
    start string. *)
Theorem key_serialization_injective :
  (∀ k1 k2 : SlotKey, _key_to_str k1 = _key_to_str k2 ↔ k1 = k2)
  ∧ (∀ c1 c2 : SlotRecord,
       Diff.key_str c1 = Diff.key_str c2 ↔ _slot_key c1 = _slot_key c2).
Proof.
  pose proof key_to_str_inj as Hinj.
  split.
  - intros k1 k2. split; [apply Hinj|by intros ->].
  - intros c1 c2. unfold Diff.key_str. split; [apply Hinj|by intros ->].
Qed.

(** ** The recipient file *)

Section LineFacts.

(** A chunk without terminator, followed by a newline, is read back as one
    line. *)
Lemma lines_from_chunk e cur rest :
  Recipients.no_newline e = true →
  Recipients.lines_from cur (e +:+ newline +:+ rest)
  = (cur +:+ e) :: Recipients.lines_from EmptyString rest.
Proof.
  revert cur. induction e as [|c e IH]; intros cur Hnl.
  - rewrite append_nil_r. reflexivity.
  - cbn [Recipients.no_newline] in Hnl.
    apply andb_true_iff in Hnl as [Hc He].
    unfold Recipients.is_newline in Hc.
    apply negb_true_iff, orb_false_iff in Hc as [Hc1 Hc2].
    change (Recipients.lines_from cur
              (String c (e +:+ newline +:+ rest))
            = (cur +:+ String c e) :: Recipients.lines_from EmptyString rest).
    cbn [Recipients.lines_from]. rewrite Hc1, Hc2.
    rewrite IH by done. f_equal. rewrite append_assoc. done.
Qed.

Lemma lines_of_written lst :
  Forall (λ e, Recipients.no_newline (Py.strip e) = true) lst →
  Recipients.lines_from EmptyString (Recipients.written_text lst)
  = map Py.strip lst.
Proof.
  induction 1 as [|e lst He Hl IH]; [done|].
  cbn [Recipients.written_text foldr map].
  rewrite lines_from_chunk by done. f_equal. exact IH.
Qed.

End LineFacts.

Section RecipientFacts.

Implicit Types (w : World) (e x : string) (lst : list string).

Local Abbreviation keeps := (λ l : string, l ≠ EmptyString ∧ Py.startswith "#" l = false).

Lemma read_list_elem file x :
  x ∈ read_list file →
  ∃ lines l, file = Some lines ∧ l ∈ lines ∧ x = Py.strip l ∧ keeps x.
Proof.
  unfold read_list. destruct file as [lines|]; [|by intros ?%elem_of_nil].
  intros [Hk Hin]%list_elem_of_filter.
  apply list_elem_of_In, in_map_iff in Hin as (l & <- & Hl).
  exists lines, l. split; [done|]. split; [by apply list_elem_of_In|done].
Qed.

Lemma filter_keeps_all lst : Forall keeps lst → filter keeps lst = lst.
Proof.
  induction 1 as [|x lst Hx _ IH]; [done|].
  rewrite filter_cons_True by done. by rewrite IH.
Qed.

Lemma map_strip_fixed lst :
  Forall (λ x, Py.strip x = x) lst → map Py.strip lst = lst.
Proof. induction 1 as [|x lst Hx _ IH]; [done|]. cbn. by rewrite Hx, IH. Qed.

(** What is on file is stripped, kept by the reader, and free of line
    terminators. *)
Lemma read_is_clean w :
  Recipients.well_formed w →
  Forall (λ x, Py.strip x = x ∧ keeps x
               ∧ Recipients.no_newline (Py.strip x) = true)
         (_read_recipients w).
Proof.
  intros Hwf. apply Forall_forall. intros x Hx.
  apply read_list_elem in Hx as (lines & l & Hfile & Hl & -> & Hk).
  rewrite strip_idem. split; [done|]. split; [done|]. by eapply Hwf.
Qed.

(** Reading back what [_write_recipients] wrote. *)
Lemma read_after_write lst w :
  Forall (λ e, Recipients.no_newline (Py.strip e) = true) lst →
  _read_recipients (Recipients._write_recipients lst w).2
  = filter keeps (map Py.strip lst)
  ∧ recipients_txt (Recipients._write_recipients lst w).2
    = Some (map Py.strip lst).
Proof.
  intros Hnl. unfold Recipients._write_recipients, _read_recipients.
  cbn [snd Recipients.put_recipients recipients_txt read_list].
  rewrite lines_of_written by done. split; [|done].
  rewrite map_map.
  rewrite (map_ext _ Py.strip) by (intros ?; apply strip_idem). done.
Qed.

Lemma add_recipient_cases e w :
  Recipients.well_formed w →
  let old := _read_recipients w in
  let out := Recipients._add_recipient e w in
  (e = EmptyString ∨ e ∈ old → out = (false, w))
  ∧ (e ≠ EmptyString → (e ∉ old) →
     Recipients.no_newline (Py.strip e) = true →
     out.1 = true
     ∧ recipients_txt out.2 = Some (old ++ [Py.strip e])
     ∧ _read_recipients out.2
       = old ++ (if Recipients.kept (Py.strip e) then [Py.strip e] else [])).
Proof.
  intros Hwf old out. subst old out. unfold Recipients._add_recipient.
  pose proof (read_is_clean w Hwf) as Hclean.
  split.
  - intros [-> | Hin]; [done|].
    rewrite (bool_decide_eq_false_2 (e ∉ _)) by tauto.
    by rewrite andb_false_r.
  - intros Hne Hout Hnl.
    rewrite !bool_decide_eq_true_2 by done. cbn [andb].
    destruct (read_after_write (_read_recipients w ++ [e]) w) as [Hread Hfile].
    { apply Forall_app. split; [|by constructor].
      eapply Forall_impl; [exact Hclean|]. by intros x (_ & _ & ?). }
    split; [done|].
    assert (map Py.strip (_read_recipients w) = _read_recipients w) as Hfix.
    { apply map_strip_fixed. eapply Forall_impl; [exact Hclean|].
      by intros x (? & _). }
    rewrite map_app, Hfix in Hread, Hfile. split; [done|].
    rewrite Hread, filter_app. f_equal.
    + apply filter_keeps_all. eapply Forall_impl; [exact Hclean|].
      by intros x (_ & ? & _).
    + cbn [map]. rewrite filter_singleton; [|exact []].
      unfold Recipients.kept.
      destruct (decide (keeps (Py.strip e))) as [[H1 H2]|Hno].
      * rewrite bool_decide_eq_true_2 by done. by rewrite H2.
      * destruct (bool_decide (Py.strip e ≠ EmptyString)) eqn:Hb; [|done].
        apply bool_decide_eq_true in Hb.
        destruct (Py.startswith "#" (Py.strip e)) eqn:Hs; [done|].
        exfalso. by apply Hno.
Qed.


(** X10: [_add_recipient] refuses an empty address and an address already
    on file, leaving the file untouched.  Otherwise it rewrites the file
    with the recipients only (comment lines are gone) followed by the
    stripped address, and reports success; the address is read back by
    [_read_recipients] unless it strips to nothing or starts with [#], in
    which case success is reported and the list is unchanged. *)
Theorem add_recipient_rewrites_the_file e w :
  Recipients.well_formed w →
  let old := _read_recipients w in
  let out := Recipients._add_recipient e w in
  (e = EmptyString ∨ e ∈ old → out = (false, w))
  ∧ (e ≠ EmptyString → (e ∉ old) →
     Recipients.no_newline (Py.strip e) = true →
     out.1 = true
     ∧ recipients_txt out.2 = Some (old ++ [Py.strip e])
     ∧ _read_recipients out.2
       = old ++ (if Recipients.kept (Py.strip e) then [Py.strip e] else [])).
Proof. apply add_recipient_cases. Qed.

(** X11: [_remove_recipient] refuses an empty address and an address that
    is not on file, leaving the file untouched.  Otherwise it rewrites the
    file without any occurrence of the address, keeps the other recipients
    in order, and reports success; the address is gone afterwards. *)
Theorem remove_recipient_rewrites_the_file e w :
  Recipients.well_formed w →
  let old := _read_recipients w in
  let out := Recipients._remove_recipient e w in
  (e = EmptyString ∨ e ∉ old → out = (false, w))
  ∧ (e ∈ old →
     out.1 = true
     ∧ _read_recipients out.2 = List.filter (λ x, bool_decide (x ≠ e)) old
     ∧ (e ∉ _read_recipients out.2)
     ∧ ∀ x, x ≠ e → (x ∈ _read_recipients out.2 ↔ x ∈ old)).
Proof.
  intros Hwf old out. subst old out. unfold Recipients._remove_recipient.
  pose proof (read_is_clean w Hwf) as Hclean.
  split.
  - intros [-> | Hout]; [done|].
    rewrite (bool_decide_eq_false_2 (e ∈ _)) by done.
    by rewrite andb_false_r.
  - intros Hin.
    assert (e ≠ EmptyString) as Hne.
    { rewrite Forall_forall in Hclean.
      by destruct (Hclean e Hin) as (_ & [? _] & _). }
    rewrite !bool_decide_eq_true_2 by done. cbn [andb].
    set (rest := List.filter (λ x, bool_decide (x ≠ e)) (_read_recipients w)).
    assert (Forall (λ x, Py.strip x = x ∧ keeps x
                         ∧ Recipients.no_newline (Py.strip x) = true) rest)
      as Hrest.
    { apply Forall_forall. intros x Hx.
      apply list_elem_of_In, filter_In in Hx as [Hx _].
      rewrite Forall_forall in Hclean. by apply Hclean, list_elem_of_In. }
    destruct (read_after_write rest w) as [Hread _].
    { eapply Forall_impl; [exact Hrest|]. by intros x (_ & _ & ?). }
    assert (_read_recipients (Recipients._write_recipients rest w).2 = rest)
      as Hback.
    { rewrite Hread, map_strip_fixed.
      - apply filter_keeps_all. eapply Forall_impl; [exact Hrest|].
        by intros x (_ & ? & _).
      - eapply Forall_impl; [exact Hrest|]. by intros x (? & _). }
    split; [done|]. split; [done|]. rewrite Hback. split.
    + intros Hx. apply list_elem_of_In, filter_In in Hx as [_ Hx].
      by apply bool_decide_eq_true in Hx.
    + intros x Hx. subst rest. split.
      * intros H. apply list_elem_of_In, filter_In in H as [H _].
        by apply list_elem_of_In.
      * intros H. apply list_elem_of_In, filter_In. split.
        -- by apply list_elem_of_In.
        -- by apply bool_decide_eq_true.
Qed.

(** X12: [POST /api/recipients] strips the address first.  A missing or
    blank address is answered 400 and nothing is written; so is an address
    already on file; a new address that does not start with [#] is answered
    200 and is on file afterwards, and sending it again is answered 400 and
    changes nothing. *)
Theorem api_add_recipient_is_idempotent field w :
  Recipients.well_formed w →
  let email := Py.strip (Py.or_else field EmptyString) in
  let out := Recipients.api_add_recipient field w in
  (email = EmptyString ∨ email ∈ _read_recipients w → out = (400, w))
  ∧ (email ≠ EmptyString → (email ∉ _read_recipients w) →
     Recipients.no_newline email = true →
     Py.startswith "#" email = false →
     out.1 = 200
     ∧ _read_recipients out.2 = _read_recipients w ++ [email]
     ∧ Recipients.api_add_recipient field out.2 = (400, out.2)).
Proof.
  intros Hwf email out. subst email out. unfold Recipients.api_add_recipient.
  set (email := Py.strip (Py.or_else field EmptyString)).
  destruct (add_recipient_cases email w Hwf) as [Hno Hyes]. split.
  - intros [Hempty|Hin].
    + by rewrite decide_True.
    + destruct (decide (email = EmptyString)); [done|].
      rewrite Hno by by right. done.
  - intros Hne Hout Hnl Hcomment.
    assert (Py.strip email = email) as Hstrip by apply strip_idem.
    rewrite decide_False by done.
    destruct Hyes as (Hok & Hfile & Hread); [done|done|by rewrite Hstrip|].
    destruct (Recipients._add_recipient email w) as [ok w'] eqn:Hadd.
    cbn [fst snd] in *. subst ok. cbn [fst snd].
    assert (Recipients.kept (Py.strip email) = true) as Hkept.
    { unfold Recipients.kept. rewrite Hstrip, Hcomment.
      by rewrite bool_decide_eq_true_2. }
    rewrite Hkept, Hstrip in Hread. split; [done|]. split; [done|].
    assert (Recipients.well_formed w') as Hwf'.
    { intros lines l Hl Hin. rewrite Hfile in Hl. injection Hl as <-.
      apply elem_of_app in Hin as [Hin|Hin].
      - pose proof (read_is_clean w Hwf) as Hclean.
        rewrite Forall_forall in Hclean. by apply Hclean.
      - apply list_elem_of_singleton in Hin. subst l.
        by rewrite !Hstrip. }
    destruct (add_recipient_cases email w' Hwf') as [Hno' _].
    rewrite Hno'; [by destruct (decide (email = EmptyString))|].
    right. rewrite Hread.
    apply elem_of_app. right. by left.
Qed.

End RecipientFacts.

Lemma watched_is_well_formed : Recipients.well_formed Scenario.watched.
Proof.
  intros lines l [= <-] Hin.
  apply elem_of_cons in Hin as [->|Hin]; [by vm_compute|].
  apply list_elem_of_singleton in Hin. subst l. by vm_compute.
Qed.

Lemma add_recipient_rewrites_the_file_witness :
  let out := Recipients._add_recipient "b@example.com" Scenario.watched in
  out.1 = true
  ∧ recipients_txt out.2 = Some ["a@example.com"; "b@example.com"]
  ∧ _read_recipients out.2 = ["a@example.com"; "b@example.com"].
Proof.
  pose proof (add_recipient_rewrites_the_file "b@example.com" Scenario.watched
                watched_is_well_formed) as (_ & H).
  apply H.
  - discriminate.
  - vm_compute. intros Hin. apply list_elem_of_singleton in Hin. discriminate.
  - vm_compute; reflexivity.
Defined.

Lemma remove_recipient_rewrites_the_file_witness :
  let out := Recipients._remove_recipient "a@example.com" Scenario.watched in
  out.1 = true
  ∧ _read_recipients out.2
    = List.filter (λ x, bool_decide (x ≠ "a@example.com"))
                  (_read_recipients Scenario.watched)
  ∧ ("a@example.com" ∉ _read_recipients out.2)
  ∧ ∀ x, x ≠ "a@example.com" →
         (x ∈ _read_recipients out.2 ↔ x ∈ _read_recipients Scenario.watched).
Proof.
  pose proof (remove_recipient_rewrites_the_file "a@example.com"
                Scenario.watched watched_is_well_formed) as (_ & H).
  apply H. vm_compute. left.
Defined.

Lemma api_add_recipient_is_idempotent_witness :
  let out := Recipients.api_add_recipient (Some " b@example.com ")
               Scenario.watched in
  out.1 = 200
  ∧ _read_recipients out.2 = _read_recipients Scenario.watched ++ ["b@example.com"]
  ∧ Recipients.api_add_recipient (Some " b@example.com ") out.2 = (400, out.2).
Proof.
  pose proof (api_add_recipient_is_idempotent (Some " b@example.com ")
                Scenario.watched watched_is_well_formed) as (_ & H).
  apply H.
  - vm_compute. discriminate.
  - vm_compute. intros Hin. apply list_elem_of_singleton in Hin. discriminate.
  - vm_compute; reflexivity.
  - vm_compute; reflexivity.
Defined.

(** [str.strip] removes what Unicode calls whitespace: an ideographic space
    (U+3000) and a no-break space (U+00A0) go, a zero-width space (U+200B)
    stays. *)
Example strip_removes_unicode_whitespace :
  Py.strip "　a@example.com " = "a@example.com"
  ∧ Py.strip "　" = EmptyString
  ∧ Py.strip " " = EmptyString
  ∧ Py.strip "​" = "​".
Proof. repeat split; vm_compute; reflexivity. Qed.

(** An address made of an ideographic space is blank for
    [POST /api/recipients], and a line ending in one is read without it. *)
Example blank_unicode_address_is_refused :
  (Recipients.api_add_recipient (Some "　") Scenario.watched).1 = 400
  ∧ read_list (Some ["a@example.com　"]) = ["a@example.com"].
Proof. split; vm_compute; reflexivity. Qed.

(** ** The poller: masking and backoff *)

Lemma chars_from_ascii (s cur : string) :
  Poller.is_ascii s = true →
  Utf8.chars_from 0 cur s
  = (if decide (cur = EmptyString) then [] else [cur])
    ++ map (λ c, String c EmptyString) (list_ascii_of_string s).
Proof.
  revert cur. induction s as [|c s IH]; intros cur Hs.
  - cbn [Utf8.chars_from list_ascii_of_string map]. by rewrite app_nil_r.
  - cbn [Poller.is_ascii] in Hs. apply andb_true_iff in Hs as [Hc Hs].
    apply bool_decide_eq_true in Hc.
    cbn [Utf8.chars_from list_ascii_of_string map]. f_equal.
    unfold Utf8.width. rewrite decide_True by lia.
    change (1 - 1)%nat with 0%nat. by rewrite IH.
Qed.

Lemma chars_ascii (s : string) :
  Poller.is_ascii s = true →
  Utf8.chars s = map (λ c, String c EmptyString) (list_ascii_of_string s).
Proof. intros Hs. unfold Utf8.chars. by rewrite chars_from_ascii. Qed.

Lemma py_len_ascii (s : string) :
  Poller.is_ascii s = true → Poller.py_len s = String.length s.
Proof.
  intros Hs. unfold Poller.py_len. rewrite chars_ascii by done.
  rewrite length_map. clear Hs. induction s as [|c s IH]; [done|].
  cbn [list_ascii_of_string length String.length]. by rewrite IH.
Qed.

Lemma first_chars_ascii (n : nat) (s : string) :
  Poller.is_ascii s = true → Poller.first_chars n s = String.substring 0 n s.
Proof.
  intros Hs. unfold Poller.first_chars.
  rewrite chars_ascii by done. clear Hs.
  revert n. induction s as [|c s IH]; intros [|n]; try done.
  cbn [list_ascii_of_string map take String.substring].
  rewrite <- IH. cbn [String.concat].
  destruct (take n (map (λ c0, String c0 EmptyString) (list_ascii_of_string s)));
    done.
Qed.

Lemma substring_length n s : (String.length (String.substring 0 n s) ≤ n)%nat.
Proof.
  revert n. induction s as [|c s IH]; intros [|n]; simpl; try lia.
  specialize (IH n). lia.
Qed.

Lemma is_ascii_slice_to (n : nat) (s : string) :
  Poller.is_ascii s = true →
  Poller.is_ascii (String.substring 0 n s) = true.
Proof.
  revert n.
  induction s as [|c s IH]; intros [|n] Hs; try done.
  cbn [Poller.is_ascii String.substring] in *.
  apply andb_true_iff in Hs as [Hc Hs]. rewrite Hc. by apply IH.
Qed.

Lemma is_ascii_append (a b : string) :
  Poller.is_ascii a = true → Poller.is_ascii b = true →
  Poller.is_ascii (a +:+ b) = true.
Proof.
  intros Ha Hb. induction a as [|c a IH]; [done|].
  cbn [Poller.is_ascii] in Ha. apply andb_true_iff in Ha as [Hc Ha].
  change (Poller.is_ascii (String c (a +:+ b)) = true).
  cbn [Poller.is_ascii]. rewrite Hc. by apply IH.
Qed.

Lemma mask_val_ascii (k v : string) :
  Poller.is_ascii v = true →
  Poller.is_ascii (Poller._mask_val k (Some v)) = true
  ∧ (String.length (Poller._mask_val k (Some v)) ≤ 67)%nat
  ∧ (Poller.is_sensitive k = true →
     (String.length (Poller._mask_val k (Some v)) ≤ 7)%nat).
Proof.
  intros Hv. cbn [Poller._mask_val].
  destruct (decide (v = EmptyString)); [by cbn; split; [|split; [lia|intros; lia]]|].
  destruct (Poller.is_sensitive k).
  - rewrite first_chars_ascii by done. rewrite length_append.
    pose proof (substring_length 4 v).
    split; [by apply is_ascii_append; [apply is_ascii_slice_to|]|].
    cbn. split; [lia|intros; lia].
  - rewrite py_len_ascii by done.
    destruct (decide (64 < String.length v)%nat).
    + rewrite first_chars_ascii by done. rewrite length_append.
      pose proof (substring_length 64 v).
      split; [by apply is_ascii_append; [apply is_ascii_slice_to|]|].
      cbn. split; [lia|done].
    + split; [done|]. split; [lia|done].
Qed.

(** X13: for a key whose upper-cased name contains PASS, KEY, TOKEN or
    SECRET, what [_mask_val] writes is decided by the first four characters
    of the value alone; the three credentials that [dump_env_status] reports
    are such keys; and for an ASCII value [_mask_val] never writes more than
    67 characters, and at most seven for such a key. *)
Theorem mask_val_hides_secrets :
  (∀ k v v', Poller.is_sensitive k = true →
       v ≠ EmptyString → v' ≠ EmptyString →
       Poller.first_chars 4 v = Poller.first_chars 4 v' →
       Poller._mask_val k (Some v) = Poller._mask_val k (Some v'))
  ∧ Forall (λ k, Poller.is_sensitive k = true)
           ["SMTP_PASS"; "SENDGRID_API_KEY"; "MAILGUN_API_KEY"]
  ∧ (∀ k v, Poller.is_ascii v = true →
       (Poller.py_len (Poller._mask_val k (Some v)) ≤ 67)%nat
       ∧ (Poller.is_sensitive k = true →
          (Poller.py_len (Poller._mask_val k (Some v)) ≤ 7)%nat)).
Proof.
  split; [|split].
  - intros k v v' Hk Hv Hv' Heq. cbn [Poller._mask_val].
    destruct (decide (v = EmptyString)); [done|].
    destruct (decide (v' = EmptyString)); [done|].
    by rewrite Hk, Heq.
  - repeat constructor.
  - intros k v Hv. destruct (mask_val_ascii k v Hv) as (Ha & H67 & H7).
    rewrite py_len_ascii by done. done.
Qed.

Lemma mask_val_hides_secrets_witness :
  Poller._mask_val "SMTP_PASS" (Some "hunter2-long-secret")
  = Poller._mask_val "SMTP_PASS" (Some "hunt")
  ∧ (Poller.py_len (Poller._mask_val "SMTP_PASS" (Some "hunter2")) ≤ 7)%nat.
Proof.
  pose proof mask_val_hides_secrets as (H & _ & H').
  split.
  - apply H; [vm_compute; reflexivity|discriminate|discriminate|reflexivity].
  - apply H'; vm_compute; reflexivity.
Defined.

(** X14: the summary that [dump_env_status] logs is the same for two
    environments that differ only in the credentials, as long as each
    credential is set in both or in neither and starts with the same four
    characters. *)
Theorem env_summary_hides_secrets (env env' : gmap string string) :
  (∀ k, Poller.is_sensitive k = false → env !! k = env' !! k) →
  (∀ k, Poller.is_sensitive k = true →
        match env !! k, env' !! k with
        | Some v, Some v' =>
            (v = EmptyString ↔ v' = EmptyString)
            ∧ Poller.first_chars 4 v = Poller.first_chars 4 v'
        | Some v, None | None, Some v => v = EmptyString
        | None, None => True
        end) →
  Poller.env_summary env = Poller.env_summary env'.
Proof.
  intros Hplain Hsecret.
  assert (∀ k, Poller._mask_val k (env !! k) = Poller._mask_val k (env' !! k))
    as Hmask; [|unfold Poller.env_summary;
                 rewrite (map_ext _ _ (λ k, f_equal (λ m, k +:+ "=" +:+ m)
                                              (Hmask k))); done].
  intros k.
  destruct (Poller.is_sensitive k) eqn:Hk.
  - specialize (Hsecret k Hk).
    destruct (env !! k) as [v|], (env' !! k) as [v'|]; cbn [Poller._mask_val].
    + destruct Hsecret as [Hiff Heq].
      destruct (decide (v = EmptyString)) as [Hv|Hv].
      * destruct (decide (v' = EmptyString)) as [Hv'|Hv']; [done|].
        exfalso. by apply Hv', Hiff.
      * destruct (decide (v' = EmptyString)) as [Hv'|Hv'].
        -- exfalso. by apply Hv, Hiff.
        -- by rewrite Hk, Heq.
    + by rewrite decide_True.
    + by rewrite decide_True.
    + done.
  - by rewrite (Hplain k Hk).
Qed.

Lemma env_summary_hides_secrets_witness :
  Poller.env_summary (<["SMTP_PASS" := "hunter2"]> Scenario.two_http)
  = Poller.env_summary (<["SMTP_PASS" := "hunt-other"]> Scenario.two_http).
Proof.
  apply env_summary_hides_secrets.
  - intros k Hk. rewrite !lookup_insert_ne; [done| |];
      intros <-; vm_compute in Hk; discriminate.
  - intros k Hk. destruct (decide (k = "SMTP_PASS")) as [->|Hne].
    + rewrite !lookup_insert_eq. split; [done|reflexivity].
    + rewrite !lookup_insert_ne by done.
      destruct (Scenario.two_http !! k) as [v|]; [|done].
      split; done.
Defined.

Lemma delays_bounds passes b :
  (1 ≤ b ∧ b ≤ 300)%nat →
  Forall (λ d, (1 ≤ d ∧ d ≤ 300)%nat) (Poller.delays b passes).
Proof.
  revert b. induction passes as [|p passes IH]; intros b Hb; [constructor|].
  cbn [Poller.delays Poller.pass fst snd]. constructor.
  - destruct p; lia.
  - apply IH. unfold Poller.max_backoff. destruct p; lia.
Qed.

Lemma delays_failures n b :
  (b ≤ 300)%nat →
  Poller.delays b (replicate n Poller.LaunchFailed)
  = map (λ k, Nat.min 300 (b * 2 ^ k)) (seq 0 n).
Proof.
  revert b. induction n as [|n IH]; intros b Hb; [done|].
  cbn [replicate Poller.delays Poller.pass fst snd seq map].
  f_equal; [change (2 ^ 0) with 1; lia|].
  rewrite IH by (unfold Poller.max_backoff; lia).
  rewrite <- seq_shift, map_map. apply map_ext_in. intros k _.
  unfold Poller.max_backoff. cbn [Nat.pow].
  destruct (decide (b * 2 ≤ 300)%nat).
  - rewrite (Nat.min_r 300 (b * 2)) by lia. f_equal. lia.
  - rewrite (Nat.min_l 300 (b * 2)) by lia.
    assert (1 ≤ 2 ^ k)%nat by (apply Nat.neq_0_lt_0, Nat.pow_nonzero; lia).
    rewrite !Nat.min_l; nia.
Qed.

Lemma delays_after_launch before n b :
  Poller.delays b (before ++ Poller.Launched :: replicate n Poller.LaunchFailed)
  = Poller.delays b before
    ++ 1 :: map (λ k, Nat.min 300 (2 * 2 ^ k)) (seq 0 n).
Proof.
  revert b. induction before as [|p before IH]; intros b.
  - cbn [app Poller.delays Poller.pass fst snd]. f_equal.
    unfold Poller.max_backoff.
    change (Nat.min 300 (1 * 2)) with 2. by rewrite delays_failures by lia.
  - cbn [app Poller.delays]. f_equal. apply IH.
Qed.

(** X15: the delays [run_poller] sleeps between passes lie between 1 and
    300 seconds; [n] failed launches in a row from the start are followed by
    the delays 1, 2, 4, ... doubling up to the cap of 300; the pass after a
    created session is followed by a delay of 1, and the failures after it
    double again from 2. *)
Theorem backoff_doubles_up_to_the_cap :
  (∀ passes, Forall (λ d, (1 ≤ d ∧ d ≤ 300)%nat) (Poller.poller_delays passes))
  ∧ (∀ n, Poller.poller_delays (replicate n Poller.LaunchFailed)
          = map (λ k, Nat.min 300 (2 ^ k)) (seq 0 n))
  ∧ (∀ before n,
       Poller.poller_delays
         (before ++ Poller.Launched :: replicate n Poller.LaunchFailed)
       = Poller.poller_delays before
         ++ 1 :: map (λ k, Nat.min 300 (2 * 2 ^ k)) (seq 0 n)).
Proof.
  split; [|split].
  - intros passes. apply delays_bounds. lia.
  - intros n. unfold Poller.poller_delays. rewrite delays_failures by lia.
    apply map_ext. intros k. f_equal. lia.
  - intros before n. apply delays_after_launch.
Qed.

(** [str.upper] maps one character to several where Unicode says so: the
    names below are sensitive for [_mask_val]. *)
Example upper_follows_unicode :
  Poller.upper "paß" = "PASS"
  ∧ Poller.is_sensitive "paß" = true
  ∧ Poller.is_sensitive "ﬆoken" = true
  ∧ Poller.is_sensitive "smtp_host" = false.
Proof. repeat split; vm_compute; reflexivity. Qed.

(** ** The monitor: summaries and truncation *)

Lemma since_since c1 c2 (l : list Monitor.Event) :
  (c2 ≤ c1)%Z → Monitor.since c1 (Monitor.since c2 l) = Monitor.since c1 l.
Proof.
  intros Hc. unfold Monitor.since.
  induction l as [|e l IH]; [done|]. cbn [List.filter].
  destruct (c2 <=? e.1)%Z eqn:H2.
  - cbn [List.filter]. by rewrite IH.
  - rewrite IH. destruct (c1 <=? e.1)%Z eqn:H1; [|done].
    apply Z.leb_le in H1. apply Z.leb_gt in H2. lia.
Qed.

Lemma since_app c (l1 l2 : list Monitor.Event) :
  Monitor.since c (l1 ++ l2) = Monitor.since c l1 ++ Monitor.since c l2.
Proof. apply List.filter_app. Qed.

Lemma since_bound c (l : list Monitor.Event) :
  Forall (λ e, (c ≤ e.1)%Z) (Monitor.since c l).
Proof.
  apply Forall_forall. intros e He.
  apply list_elem_of_In, filter_In in He as [_ He]. by apply Z.leb_le.
Qed.

(** X16: truncating the event lists to the last six hours never changes a
    later summary: whatever the followers record afterwards, the summary
    written at any later clock reading is the one that would have been
    written without the truncation; and after the truncation no kept event
    is older than six hours. *)
Theorem truncation_never_changes_a_summary
    (s new : Monitor.Stats) (now1 now2 later : Z) :
  (now2 ≤ later)%Z →
  let kept := (Monitor.turn now1 now2 s).2 in
  Monitor.summary later (Monitor.record new kept)
  = Monitor.summary later (Monitor.record new s)
  ∧ Forall (λ e, (now2 - Monitor.hours 6 ≤ e.1)%Z)
           (Monitor.dry_run_events kept ++ Monitor.smtp_fail_events kept
            ++ Monitor.smtp_success kept).
Proof.
  intros Hlater kept. subst kept. split.
  - unfold Monitor.summary, Monitor.record, Monitor.turn, Monitor.truncate.
    cbn [snd Monitor.dry_run_events Monitor.smtp_fail_events
         Monitor.smtp_success].
    rewrite !since_app.
    rewrite !since_since by (unfold Monitor.minutes, Monitor.hours; lia).
    done.
  - unfold Monitor.turn, Monitor.truncate.
    cbn [snd Monitor.dry_run_events Monitor.smtp_fail_events
         Monitor.smtp_success].
    rewrite !Forall_app. repeat split; apply since_bound.
Qed.

Lemma truncation_never_changes_a_summary_witness :
  let s := Monitor.mkStats [(0%Z, "DRY-RUN send")] [] [] in
  let new := Monitor.mkStats [] [(Monitor.hours 7, "SMTP send failed")] [] in
  let kept := (Monitor.turn 0 (Monitor.hours 7) s).2 in
  Monitor.summary (Monitor.hours 7) (Monitor.record new kept)
  = Monitor.summary (Monitor.hours 7) (Monitor.record new s)
  ∧ Forall (λ e, (Monitor.hours 7 - Monitor.hours 6 ≤ e.1)%Z)
           (Monitor.dry_run_events kept ++ Monitor.smtp_fail_events kept
            ++ Monitor.smtp_success kept).
Proof.
  apply truncation_never_changes_a_summary. lia.
Defined.

(** ** The poller: environment files *)

Lemma load_lines_untouched lines env k :
  (∀ ln v, ln ∈ lines → EnvFile.parse_line ln ≠ EnvFile.Assign k v) →
  EnvFile.load_lines lines env !! k = env !! k.
Proof.
  revert env. induction lines as [|ln lines IH]; intros env Hk; [done|].
  cbn [EnvFile.load_lines].
  destruct (EnvFile.parse_line ln) as [|k' v'|] eqn:Hp; [| |done].
  - apply IH. intros ln' v Hin. apply Hk. by right.
  - rewrite IH by (intros ln' v Hin; apply Hk; by right).
    apply lookup_insert_ne. intros ->. eapply Hk; [left|exact Hp].
Qed.

Lemma load_lines_snoc lines ln env :
  Forall (λ l, EnvFile.parse_line l ≠ EnvFile.Raise) lines →
  EnvFile.load_lines (lines ++ [ln]) env
  = EnvFile.load_lines [ln] (EnvFile.load_lines lines env).
Proof.
  intros Hok. revert env.
  induction Hok as [|l lines Hl _ IH]; intros env; [done|].
  cbn [app EnvFile.load_lines].
  destruct (EnvFile.parse_line l); [apply IH|apply IH|done].
Qed.

(** X17: reading an environment file leaves every variable that no line
    assigns as it was (a missing file changes nothing); comment lines, blank
    lines and lines without [=] assign nothing; and when no line of the file
    makes [os.environ] raise, the last assignment of the file decides the
    value, also over what the system file set before the user file. *)
Theorem env_file_last_assignment_wins :
  (∀ env, EnvFile._load_env_file None env = env)
  ∧ (∀ lines env k,
       (∀ ln v, ln ∈ lines → EnvFile.parse_line ln ≠ EnvFile.Assign k v) →
       EnvFile._load_env_file (Some lines) env !! k = env !! k)
  ∧ (∀ ln, Py.strip ln = EmptyString ∨ Py.startswith "#" (Py.strip ln) = true
           ∨ EnvFile.split_eq (Py.strip ln) = None →
           EnvFile.parse_line ln = EnvFile.Skip)
  ∧ (∀ lines ln k v env,
       Forall (λ l, EnvFile.parse_line l ≠ EnvFile.Raise) lines →
       EnvFile.parse_line ln = EnvFile.Assign k v →
       EnvFile._load_env_file (Some (lines ++ [ln])) env !! k = Some v)
  ∧ (∀ system lines ln k v env,
       Forall (λ l, EnvFile.parse_line l ≠ EnvFile.Raise) lines →
       EnvFile.parse_line ln = EnvFile.Assign k v →
       EnvFile.load_env_files system (Some (lines ++ [ln])) env !! k = Some v).
Proof.
  assert (∀ lines ln k v env,
    Forall (λ l, EnvFile.parse_line l ≠ EnvFile.Raise) lines →
    EnvFile.parse_line ln = EnvFile.Assign k v →
    EnvFile.load_lines (lines ++ [ln]) env !! k = Some v) as Hlast.
  { intros lines ln k v env Hok Hp. rewrite load_lines_snoc by done.
    cbn [EnvFile.load_lines]. rewrite Hp. apply lookup_insert_eq. }
  split; [done|]. split; [|split; [|split]].
  - intros lines env k Hk. by apply load_lines_untouched.
  - intros ln H. unfold EnvFile.parse_line.
    destruct (decide (Py.strip ln = EmptyString)); [done|].
    destruct (Py.startswith "#" (Py.strip ln)) eqn:Hc; [done|].
    destruct H as [?|[?| ->]]; done.
  - intros lines ln k v env. apply Hlast.
  - intros system lines ln k v env. unfold EnvFile.load_env_files.
    apply Hlast.
Qed.

Lemma env_file_last_assignment_wins_witness :
  EnvFile.load_env_files
    (Some ["SMTP_HOST=old.example.com"])
    (Some (["# mail"; "SMTP_PORT = 587"] ++ ["SMTP_HOST = 'mail.example.com' "]))
    ∅ !! "SMTP_HOST"
  = Some "mail.example.com".
Proof.
  pose proof env_file_last_assignment_wins as (_ & _ & _ & _ & H).
  apply H.
  - repeat constructor; vm_compute; discriminate.
  - vm_compute; reflexivity.
Defined.

(** A comment line indented with an ideographic space is still a comment,
    and a name followed by a no-break space is stripped. *)
Example env_file_strips_unicode_whitespace :
  EnvFile.parse_line "　#K=v" = EnvFile.Skip
  ∧ EnvFile.parse_line "KEY = v" = EnvFile.Assign "KEY" "v".
Proof. split; vm_compute; reflexivity. Qed.
